(** * ESO Crown Store free-items scraper: a shallow embedding of
      [eso_scraper.py] and the properties of its detection and
      deduplication pipeline.

    Python values are modelled as follows.
    - a [str] read off a page or written in the source is a [string]; a
      character is one [ascii] code unit, read as the code point of the
      same number (U+0000 .. U+00FF).
    - a [str] held in the Ledger, which comes from a file that may hold
      any character, is a [unicode]: the list of its code points. The
      Ledger is the set of the strings it holds; numbers, [true], [false]
      and [null], which a Ledger file written by hand may hold beside
      them, are read and then left out.
    - the content of a file is a [string] of bytes; text is read from it
      as UTF-8.
    - [set] of strings is [gset]; iterating a set ([for x in s],
      [list(s)]) is [elements], whose order is fixed but unspecified.
    - the [unique_images] dict is an insertion-ordered association list.
    - an exception is the [Raise] branch of [result]; every [try/except]
      of the source is a [match] on it.
    - the rendered page is a DOM tree; the XPath expressions the source
      hands to Selenium are terms of [xpath], evaluated on the tree. *)

From Stdlib Require Import ZArith Ascii String Lia.
From stdpp Require Import base option list gmap sets strings.

Set Warnings "-register-all,-clear-no-such-hyp".

Local Open Scope Z_scope.
Local Open Scope stdpp_scope.

(** ** Exceptions *)

Inductive exn : Type :=
| TimeoutException
| WebDriverException
| NoSuchElementException
| InvalidSelectorException
| AttributeError
| UnicodeDecodeError
| JSONDecodeError
| TypeError
| OSError.

Inductive result (A : Type) : Type :=
| Ok (a : A)
| Raise (e : exn).
Arguments Ok {A} a.
Arguments Raise {A} e.

(** ** Python string operations *)

(** [s.startswith(p)] *)
Fixpoint startswith (s p : string) : bool :=
  match p, s with
  | EmptyString, _ => true
  | String _ _, EmptyString => false
  | String a p', String b s' =>
      if Ascii.eqb a b then startswith s' p' else false
  end.

(** [sub in s] *)
Fixpoint str_in (sub s : string) : bool :=
  startswith s sub ||
  match s with
  | EmptyString => false
  | String _ s' => str_in sub s'
  end.

(** [str.isspace] on one character (code points below U+0100). *)
Definition is_py_space (c : ascii) : bool :=
  let n := N_of_ascii c in
  ((9 <=? n) && (n <=? 13) || (28 <=? n) && (n <=? 32)
   || (n =? 133) || (n =? 160))%N.

Fixpoint lstrip (s : string) : string :=
  match s with
  | EmptyString => EmptyString
  | String c s' => if is_py_space c then lstrip s' else s
  end.

(** [s.strip()] *)
Definition strip (s : string) : string :=
  String.rev (lstrip (String.rev (lstrip s))).

Definition lower_char (c : ascii) : ascii :=
  let n := N_of_ascii c in
  if ((65 <=? n) && (n <=? 90)
      || (192 <=? n) && (n <=? 222) && negb (n =? 215))%N
  then ascii_of_N (n + 32) else c.

(** [s.lower()] *)
Fixpoint lower (s : string) : string :=
  match s with
  | EmptyString => EmptyString
  | String c s' => String (lower_char c) (lower s')
  end.

(** [len(s)] *)
Definition len (s : string) : Z := Z.of_nat (String.length s).

(** Truth value of a string that may be [None]: [if href] *)
Definition truthy (o : option string) : bool :=
  match o with
  | Some (String _ _) => true
  | _ => false
  end.

(** The double-quote character as a string. *)
Definition dq : string := String "034"%char EmptyString.

(** [str(b)] as an f-string renders it *)
Definition str_of_bool (b : bool) : string :=
  if b then "True" else "False".

(** ** The rendered page *)

(** A DOM node. [rect] is the rendered size Selenium reports for the
    element ([element.size]); reading it can raise. *)
Inductive node : Type :=
| Text (data : string)
| Element (tag : string) (attrs : list (string * string))
          (rect : result (Z * Z)) (children : list node).

(** A [WebElement] handle: the node and its ancestors, outermost first. *)
Record WebElement : Type := {
  we_node : node;
  we_ancestors : list node
}.

Record page : Type := { document : node }.

Definition node_tag (n : node) : string :=
  match n with
  | Text _ => EmptyString
  | Element t _ _ _ => t
  end.

Definition node_children (n : node) : list node :=
  match n with
  | Text _ => []
  | Element _ _ _ cs => cs
  end.

Fixpoint assoc (k : string) (l : list (string * string)) : option string :=
  match l with
  | [] => None
  | (k', v) :: l' => if String.eqb k k' then Some v else assoc k l'
  end.

(** [element.get_attribute(name)] *)
Definition get_attribute (e : WebElement) (name : string) : option string :=
  match we_node e with
  | Text _ => None
  | Element _ attrs _ _ => assoc name attrs
  end.

(** [element.size] *)
Definition element_size (e : WebElement) : result (Z * Z) :=
  match we_node e with
  | Text _ => Raise WebDriverException
  | Element _ _ r _ => r
  end.

(** The text of a node and of everything below it, in document order. *)
Fixpoint text_content (n : node) : string :=
  match n with
  | Text s => s
  | Element _ _ _ cs =>
      (fix go (l : list node) : string :=
         match l with
         | [] => EmptyString
         | c :: l' => text_content c +:+ go l'
         end) cs
  end.

(** [element.text]: the text the element shows, taken to be all the text
    below it. *)
Definition text (e : WebElement) : string := text_content (we_node e).

(** The element [n] and the elements below it, in document order, each
    with its chain of ancestors; [anc] is the chain above [n]. *)
Fixpoint descendant_or_self (anc : list node) (n : node) : list WebElement :=
  match n with
  | Text _ => []
  | Element _ _ _ cs =>
      {| we_node := n; we_ancestors := anc |} ::
      (fix go (l : list node) : list WebElement :=
         match l with
         | [] => []
         | c :: l' => descendant_or_self (anc ++ [n]) c ++ go l'
         end) cs
  end.

(** The elements strictly below a handle. *)
Definition descendants (e : WebElement) : list WebElement :=
  flat_map (descendant_or_self (we_ancestors e ++ [we_node e]))
           (node_children (we_node e)).

(** The ancestors of a handle as handles, outermost first. *)
Fixpoint handles (above : list node) (chain : list node) : list WebElement :=
  match chain with
  | [] => []
  | n :: chain' =>
      {| we_node := n; we_ancestors := above |} :: handles (above ++ [n]) chain'
  end.

Definition ancestors (e : WebElement) : list WebElement :=
  handles [] (we_ancestors e).

(** ** XPath, as far as the source uses it *)

(** The string value of [text()] as an argument of [contains]: XPath 1.0
    converts the node-set to the string value of its first node, here the
    first text child of the element. *)
Fixpoint first_text (cs : list node) : string :=
  match cs with
  | [] => EmptyString
  | Text s :: _ => s
  | Element _ _ _ _ :: cs' => first_text cs'
  end.

Definition xp_text (e : WebElement) : string :=
  first_text (node_children (we_node e)).

(** The string value of [@name]; empty when the attribute is missing. *)
Definition xp_attr (e : WebElement) (name : string) : string :=
  default EmptyString (get_attribute e name).

Inductive xpred : Type :=
| ContainsText (s : string)            (* contains(text(), s) *)
| ContainsAttr (name s : string)       (* contains(@name, s) *)
| HasAttr (name : string)              (* @name *)
| XAnd (p q : xpred)
| XOr (p q : xpred).

(** Expressions evaluated from the document: [driver.find_elements]. *)
Inductive xpath : Type :=
| AnyElement (p : xpred)               (* //*[p] *)
| ByTag (tag : string)                 (* //tag *)
| ByTagWhere (tag : string) (p : xpred)(* //tag[p] *)
| Malformed (src : string).            (* not an XPath 1.0 expression *)

(** Expressions evaluated from an element: [element.find_elements]. *)
Inductive rel_xpath : Type :=
| Parent                               (* ./.. *)
| AncestorOrSelf (p : xpred)           (* ./ancestor-or-self::*[p] *)
| Ancestor (p : xpred)                 (* ./ancestor::*[p] *)
| Below (tag : string) (p : xpred).    (* .//tag[p] *)

Fixpoint holds (p : xpred) (e : WebElement) : bool :=
  match p with
  | ContainsText s => str_in s (xp_text e)
  | ContainsAttr name s => str_in s (xp_attr e name)
  | HasAttr name => bool_decide (is_Some (get_attribute e name))
  | XAnd p q => holds p e && holds q e
  | XOr p q => holds p e || holds q e
  end.

Definition has_tag (tag : string) (e : WebElement) : bool :=
  String.eqb (node_tag (we_node e)) tag.

Definition all_elements (pg : page) : list WebElement :=
  descendant_or_self [] (document pg).

(** [driver.find_elements(By.XPATH, x)]; a malformed expression makes the
    browser refuse the query. *)
Definition find_elements (pg : page) (x : xpath) : result (list WebElement) :=
  match x with
  | AnyElement p => Ok (filter (λ e, holds p e) (all_elements pg))
  | ByTag tag => Ok (filter (λ e, has_tag tag e) (all_elements pg))
  | ByTagWhere tag p =>
      Ok (filter (λ e, has_tag tag e && holds p e) (all_elements pg))
  | Malformed _ => Raise InvalidSelectorException
  end.

(** [element.find_elements(By.XPATH, x)]; results come in document order,
    so the outermost ancestor is first. *)
Definition element_find_elements (e : WebElement) (x : rel_xpath)
  : result (list WebElement) :=
  match x with
  | Parent => Ok (option_list (last (ancestors e)))
  | AncestorOrSelf p => Ok (filter (λ d, holds p d) (ancestors e ++ [e]))
  | Ancestor p => Ok (filter (λ d, holds p d) (ancestors e))
  | Below tag p =>
      Ok (filter (λ d, has_tag tag d && holds p d) (descendants e))
  end.

(** [element.find_element(By.XPATH, x)]: the first match, or an exception. *)
Definition element_find_element (e : WebElement) (x : rel_xpath)
  : result WebElement :=
  match element_find_elements e x with
  | Raise err => Raise err
  | Ok [] => Raise NoSuchElementException
  | Ok (d :: _) => Ok d
  end.

(** ** The browser session *)

(** The browser session: [storefront n u] is what the [n]-th navigation
    of the session yields when it goes to [u] (the rendered page after
    the readiness wait, or the exception raised on the way); [visits]
    counts the navigations made so far and [history] lists the addresses
    they went to, first navigation first. *)
Record driver : Type := {
  storefront : nat → string → result page;
  visits : nat;
  history : list string
}.

(** [driver.get(u)] followed by the readiness wait. *)
Definition driver_get (d : driver) (u : string) : result page * driver :=
  (storefront d (visits d) u,
   {| storefront := storefront d; visits := S (visits d);
      history := history d ++ [u] |}).

(** ** Free-item classifier: [extract_item_details] *)

Record item_details : Type := {
  name : string;
  url : string;
  category_url : string;
  image_url : option string;
  is_eso_plus_free : bool;
  found_date : string
}.

(** [//*[contains(text(), 'FREE!')]] *)
Definition xp_free : xpath := AnyElement (ContainsText "FREE!").

(** [./ancestor-or-self::*[contains(@class, 'eso-plus-loyalty')]] *)
Definition xp_loyalty : rel_xpath :=
  AncestorOrSelf (ContainsAttr "class" "eso-plus-loyalty").

(** [//*[contains(text(), 'FREE!') and contains(text(), 'With ESO Plus Deal')]] *)
Definition xp_free_with_deal : xpath :=
  AnyElement (XAnd (ContainsText "FREE!") (ContainsText "With ESO Plus Deal")).

(** [.//a[@href]] *)
Definition xp_links : rel_xpath := Below "a" (HasAttr "href").

(** [//img[contains(@src, "/ape/uploads/")]] *)
Definition xp_images : xpath :=
  ByTagWhere "img" (ContainsAttr "src" "/ape/uploads/").

(** The list [name_selectors]. The last four entries use the CSS operator
    [*=] inside an XPath predicate; XPath 1.0 reads the star as a
    multiplication with no right operand, so the browser rejects them. *)
Definition name_selectors : list xpath :=
  [ ByTag "h1";
    ByTag "h2";
    ByTag "h3";
    Malformed ("//*[@class*=" +:+ dq +:+ "title" +:+ dq +:+ "]");
    Malformed ("//*[@class*=" +:+ dq +:+ "name" +:+ dq +:+ "]");
    Malformed ("//*[@class*=" +:+ dq +:+ "item-name" +:+ dq +:+ "]");
    Malformed ("//*[@class*=" +:+ dq +:+ "product-name" +:+ dq +:+ "]") ].

(** The first link of the list whose address is an item detail page:
    the [for link in link_elements] loop with its [break]. *)
Fixpoint first_item_href (link_elements : list WebElement) : option string :=
  match link_elements with
  | [] => None
  | link :: rest =>
      let href := get_attribute link "href" in
      if truthy href && str_in "/crownstore/item/" (default EmptyString href)
      then href
      else first_item_href rest
  end.

(** The loop over [all_free_elements]: stop at the first marker that has
    a loyalty element among itself and its ancestors; a marker whose
    inspection raises is skipped. *)
Fixpoint loyalty_scan (all_free_elements : list WebElement) : bool :=
  match all_free_elements with
  | [] => false
  | free_element :: rest =>
      match element_find_elements free_element xp_loyalty with
      | Ok [] => loyalty_scan rest
      | Ok (_ :: _) => true
      | Raise _ => loyalty_scan rest
      end
  end.

(** The condition on a candidate name. *)
Definition name_ok (text : string) : bool :=
  truthy (Some text) && (len text >? 2)
  && negb (str_in "crown store" (lower text))
  && negb (str_in "purchase crowns" (lower text)).

(** The inner loop [for element in elements]. *)
Fixpoint first_name (elements : list WebElement) : option string :=
  match elements with
  | [] => None
  | element :: rest =>
      let text := strip (text element) in
      if name_ok text then Some text else first_name rest
  end.

(** The outer loop [for selector in name_selectors]. *)
Fixpoint resolve_name (pg : page) (selectors : list xpath)
  : result (option string) :=
  match selectors with
  | [] => Ok None
  | selector :: rest =>
      match find_elements pg selector with
      | Raise e => Raise e
      | Ok elements =>
          match first_name elements with
          | Some item_name => Ok (Some item_name)
          | None => resolve_name pg rest
          end
      end
  end.

(** [unique_images[k] = v] on an insertion-ordered dict. *)
Fixpoint dict_set (k : string) (v : Z) (d : list (string * Z))
  : list (string * Z) :=
  match d with
  | [] => [(k, v)]
  | (k', v') :: d' =>
      if String.eqb k k' then (k, v) :: d' else (k', v') :: dict_set k v d'
  end.

(** The body of [for img in img_elements]. *)
Definition record_image (unique_images : list (string * Z)) (img : WebElement)
  : list (string * Z) :=
  let src := get_attribute img "src" in
  let s := default EmptyString src in
  if truthy src && str_in "akamaihd.net" s && str_in "/ape/uploads/" s
     && negb (str_in "icon-crown" s)
  then
    match element_size img with
    | Ok (width, height) =>
        if (width >? 100) && (height >? 100)
        then dict_set s (width * height) unique_images
        else unique_images
    | Raise _ => dict_set s 0 unique_images
    end
  else unique_images.

(** [max(d.keys(), key=lambda k: d[k])] continued from a current best:
    a later key replaces it only when strictly larger. *)
Fixpoint max_key (best : string * Z) (d : list (string * Z)) : string :=
  match d with
  | [] => fst best
  | kv :: d' => if snd kv >? snd best then max_key kv d' else max_key best d'
  end.

(** The image step, run on the detail page the driver is on. *)
Definition main_image (pg : page) : option string :=
  match find_elements pg xp_images with
  | Raise _ => None
  | Ok img_elements =>
      match fold_left record_image img_elements [] with
      | [] => None
      | kv :: unique_images => Some (max_key kv unique_images)
      end
  end.

(** The target address: [item_url] when given, otherwise the first item
    link below [item_container]. *)
Definition target_of (item_container : option WebElement)
    (item_url : option string) : option string :=
  if truthy item_url then item_url
  else
    match item_container with
    | None => None
    | Some c =>
        match element_find_elements c xp_links with
        | Ok link_elements => first_item_href link_elements
        | Raise _ => None
        end
    end.

(** What the detail page decides once the driver is on it: the name, the
    two flags and the image. This is the inner [try] block of
    [extract_item_details] followed by the construction of the record. *)
Definition inspect_item (pg : page) (now target_url category_url : string)
  : option item_details :=
  match find_elements pg xp_free with
  | Raise _ => None
  | Ok [] => None
  | Ok (_ :: _) =>
      match find_elements pg xp_free with
      | Raise _ => None
      | Ok all_free_elements =>
          let is_eso_plus_free_found := loyalty_scan all_free_elements in
          match find_elements pg xp_free_with_deal with
          | Raise _ => None
          | Ok eso_plus_free_text =>
              let is_eso_plus_free_found :=
                match eso_plus_free_text with
                | [] => is_eso_plus_free_found
                | _ :: _ => true
                end in
              let is_free := true in
              let is_eso_plus_free := is_eso_plus_free_found in
              match resolve_name pg name_selectors with
              | Raise _ => None
              | Ok item_name =>
                  if negb (truthy item_name) || negb is_free then None
                  else
                    Some {| name := default EmptyString item_name;
                            url := target_url;
                            category_url := category_url;
                            image_url := main_image pg;
                            is_eso_plus_free := is_eso_plus_free;
                            found_date := now |}
              end
          end
      end
  end.

(** [extract_item_details(driver, item_container, category_url, item_url)];
    [now] is the formatted wall-clock time. *)
Definition extract_item_details (d : driver) (now : string)
    (item_container : option WebElement) (category_url : string)
    (item_url : option string) : option item_details * driver :=
  match target_of item_container item_url with
  | None => (None, d)
  | Some target_url =>
      let '(loaded, d) := driver_get d target_url in
      match loaded with
      | Raise _ => (None, d)
      | Ok pg => (inspect_item pg now target_url category_url, d)
      end
  end.

(** ** Page discoverer: [get_all_crownstore_urls] *)

Definition root_url : string :=
  "https://www.elderscrollsonline.com/en-us/crownstore".

(** The body of [for link in links]. *)
Definition add_link (urls : gset string) (link : WebElement) : gset string :=
  let href := get_attribute link "href" in
  if truthy href && startswith (default EmptyString href) root_url
  then {[ default EmptyString href ]} ∪ urls
  else urls.

Definition get_all_crownstore_urls (d : driver) : list string * driver :=
  let '(loaded, d) := driver_get d root_url in
  match loaded with
  | Raise _ => ([root_url], d)
  | Ok pg =>
      match find_elements pg (ByTag "a") with
      | Raise _ => ([root_url], d)
      | Ok links =>
          let urls := fold_left add_link links ∅ in
          let urls := {[ root_url ]} ∪ urls in
          (elements urls, d)
      end
  end.

(** ** Notifier: [send_item_to_discord] *)

Record discord_message : Type := {
  content : string;
  avatar_url : string
}.

Definition newline : string := String "010"%char EmptyString.

Definition message_of (it : item_details) : discord_message :=
  let free_text := if is_eso_plus_free it then "FREE with ESO Plus!" else "FREE!" in
  {| content := "**" +:+ name it +:+ " - " +:+ free_text +:+ "**" +:+ newline
                +:+ url it;
     avatar_url := "http://137.184.15.191/webhook-avatar.png" |}.

(** [post] is [requests.post]: the status code of the response, or an
    exception. The function reports whether the channel answered 204. *)
Definition send_item_to_discord (post : string → discord_message → result Z)
    (it : item_details) (webhook_url : string) : bool :=
  match post webhook_url (message_of it) with
  | Ok status_code => if status_code =? 204 then true else false
  | Raise _ => false
  end.

(** ** Strings of any characters *)

(** A [str] that may hold any character: the list of its code points. *)
Definition unicode : Type := list N.

(** The numbers of the characters of a [string]: its code points when it
    is a [str], its bytes when it is the content of a file. *)
Definition codes (s : string) : list N := N_of_ascii <$> list_ascii_of_string s.

(** High and low surrogates, and the code points that are neither and
    lie in the Unicode range. *)
Definition is_high (c : N) : bool := ((0xD800 <=? c) && (c <=? 0xDBFF))%N.
Definition is_low (c : N) : bool := ((0xDC00 <=? c) && (c <=? 0xDFFF))%N.
Definition is_scalar (c : N) : bool :=
  ((c <? 0xD800) || (0xDFFF <? c) && (c <? 0x110000))%N.

(** ** Reading a text file: UTF-8 *)

(** [open(path, 'r')] decodes the bytes of the file with the encoding of
    the locale, taken to be UTF-8: the program is written for an Ubuntu
    server. *)

Definition is_continuation (b : N) : bool := ((0x80 <=? b) && (b <=? 0xBF))%N.

(** The text a file's bytes stand for, or nothing when they are not
    UTF-8: a stray or missing continuation byte, an overlong form, a
    surrogate or a number above U+10FFFF. *)
Fixpoint utf8_decode (bs : list N) : option unicode :=
  match bs with
  | [] => Some []
  | b0 :: bs1 =>
      if (b0 <? 0x80)%N then cons b0 <$> utf8_decode bs1
      else
        match bs1 with
        | [] => None
        | b1 :: bs2 =>
            if negb (is_continuation b1) then None
            else if ((0xC2 <=? b0) && (b0 <=? 0xDF))%N then
              cons ((b0 - 0xC0) * 64 + (b1 - 0x80))%N <$> utf8_decode bs2
            else
              match bs2 with
              | [] => None
              | b2 :: bs3 =>
                  if negb (is_continuation b2) then None
                  else if ((0xE0 <=? b0) && (b0 <=? 0xEF))%N then
                    let c := ((b0 - 0xE0) * 4096 + (b1 - 0x80) * 64 + (b2 - 0x80))%N in
                    if (0x800 <=? c)%N && is_scalar c
                    then cons c <$> utf8_decode bs3 else None
                  else
                    match bs3 with
                    | [] => None
                    | b3 :: bs4 =>
                        if negb (is_continuation b3) then None
                        else if ((0xF0 <=? b0) && (b0 <=? 0xF4))%N then
                          let c := ((b0 - 0xF0) * 262144 + (b1 - 0x80) * 4096
                                    + (b2 - 0x80) * 64 + (b3 - 0x80))%N in
                          if ((0x10000 <=? c) && (c <? 0x110000))%N
                          then cons c <$> utf8_decode bs4 else None
                        else None
                    end
              end
        end
  end.

(** ** JSON values *)

(** What [json.load] returns. A number is kept as it is written (so are
    [NaN], [Infinity] and [-Infinity]): its value plays no part below. *)
Inductive json : Type :=
| JNull
| JBool (b : bool)
| JNumber (literal : unicode)
| JString (s : unicode)
| JArray (items : list json)
| JObject (members : list (unicode * json)).

(** ** Writing: [json.dump(l, f, indent=2)] for a list of strings *)

Definition hex_digit (n : N) : ascii :=
  if (n <? 10)%N then ascii_of_N (48 + n) else ascii_of_N (87 + n).

(** [\uXXXX] *)
Definition u_escape (n : N) : string :=
  "\u" +:+ String (hex_digit (n / 4096 mod 16))
          (String (hex_digit (n / 256 mod 16))
          (String (hex_digit (n / 16 mod 16))
          (String (hex_digit (n mod 16)) EmptyString))).

(** One character of a string literal, escaped as [ensure_ascii] does:
    a character above U+FFFF is written as a pair of surrogates. *)
Definition escape_char (c : N) : string :=
  if (c =? 34)%N then "\" +:+ dq
  else if (c =? 92)%N then "\\"
  else if (c =? 10)%N then "\n"
  else if (c =? 13)%N then "\r"
  else if (c =? 9)%N then "\t"
  else if (c =? 8)%N then "\b"
  else if (c =? 12)%N then "\f"
  else if ((32 <=? c) && (c <=? 126))%N then String (ascii_of_N c) EmptyString
  else if (c <? 0x10000)%N then u_escape c
  else u_escape (0xD800 + (c - 0x10000) / 1024 mod 1024)
       +:+ u_escape (0xDC00 + (c - 0x10000) mod 1024).

Fixpoint escape (s : unicode) : string :=
  match s with
  | [] => EmptyString
  | c :: s' => escape_char c +:+ escape s'
  end.

(** A string literal. *)
Definition json_string (s : unicode) : string := dq +:+ escape s +:+ dq.

(** The items of a non-empty array, each on its own line, indented by two
    spaces and separated by a comma. *)
Fixpoint json_items (first : unicode) (rest : list unicode) : string :=
  match rest with
  | [] => json_string first
  | s :: rest' => json_string first +:+ "," +:+ newline +:+ "  " +:+ json_items s rest'
  end.

(** The text [json.dump(l, f, indent=2)] writes for a list of strings; it
    is ASCII, so its characters are the bytes of the file. *)
Definition json_dump (l : list unicode) : string :=
  match l with
  | [] => "[]"
  | s :: rest => "[" +:+ newline +:+ "  " +:+ json_items s rest +:+ newline +:+ "]"
  end.

(** ** Reading: [json.load(f)] *)

(** JSON whitespace: space, tab, line feed, carriage return. *)
Definition is_json_ws (c : N) : bool :=
  ((c =? 32) || (c =? 9) || (c =? 10) || (c =? 13))%N.

Definition is_digit (c : N) : bool := ((48 <=? c) && (c <=? 57))%N.

Definition unhex (c : N) : option N :=
  if ((48 <=? c) && (c <=? 57))%N then Some (c - 48)%N
  else if ((97 <=? c) && (c <=? 102))%N then Some (c - 87)%N
  else if ((65 <=? c) && (c <=? 70))%N then Some (c - 55)%N
  else None.

(** The character a one-letter escape stands for. *)
Definition unescape (c : N) : option N :=
  if (c =? 34)%N then Some c
  else if (c =? 92)%N then Some c
  else if (c =? 47)%N then Some c
  else if (c =? 98)%N then Some 8%N
  else if (c =? 102)%N then Some 12%N
  else if (c =? 110)%N then Some 10%N
  else if (c =? 114)%N then Some 13%N
  else if (c =? 116)%N then Some 9%N
  else None.

(** The body of a string literal, cut into what each part stands for: a
    character written as itself or by a one-letter escape, or the number
    of a [\uXXXX] escape. *)
Inductive piece : Type :=
| Plain (c : N)
| Escaped (u : N).

Fixpoint pieces (body : list N) : option (list piece) :=
  match body with
  | [] => Some []
  | c :: body1 =>
      if (c =? 92)%N then
        match body1 with
        | [] => None
        | e :: body2 =>
            if (e =? 117)%N then
              match body2 with
              | h1 :: h2 :: h3 :: h4 :: body3 =>
                  match unhex h1, unhex h2, unhex h3, unhex h4 with
                  | Some a, Some b, Some x, Some y =>
                      cons (Escaped (4096 * a + 256 * b + 16 * x + y)%N) <$> pieces body3
                  | _, _, _, _ => None
                  end
              | _ => None
              end
            else
              match unescape e with
              | Some ch => cons (Plain ch) <$> pieces body2
              | None => None
              end
        end
      else cons (Plain c) <$> pieces body1
  end.

(** The characters the pieces stand for: a [\uXXXX] escape of a high
    surrogate directly followed by one of a low surrogate is the one
    character the two encode. *)
Fixpoint join (ps : list piece) : unicode :=
  match ps with
  | [] => []
  | Plain c :: ps1 => c :: join ps1
  | Escaped u :: ps1 =>
      match ps1 with
      | Escaped v :: ps2 =>
          if is_high u && is_low v
          then (0x10000 + (u - 0xD800) * 1024 + (v - 0xDC00))%N :: join ps2
          else u :: join ps1
      | _ => u :: join ps1
      end
  end.

Definition decode_string (body : list N) : option unicode := join <$> pieces body.

Inductive token : Type :=
| TLBracket
| TRBracket
| TLBrace
| TRBrace
| TComma
| TColon
| TValue (v : json).      (* a string, a number or a literal name *)

(** How far into a number the scanner is. A number is an optional
    minus sign, then a zero or a non-zero digit followed by digits, then
    optionally a point and digits, then optionally [e] or [E], an
    optional sign and digits. *)
Inductive number_phase : Type :=
| AfterMinus
| LeadingZero
| IntDigits
| AfterPoint
| FracDigits
| AfterE
| AfterESign
| ExpDigits.

(** Can the number end here? *)
Definition complete (ph : number_phase) : bool :=
  match ph with
  | LeadingZero | IntDigits | FracDigits | ExpDigits => true
  | _ => false
  end.

Definition number_step (ph : number_phase) (c : N) : option number_phase :=
  let e := ((c =? 101) || (c =? 69))%N in
  match ph with
  | AfterMinus =>
      if (c =? 48)%N then Some LeadingZero
      else if is_digit c then Some IntDigits else None
  | LeadingZero =>
      if (c =? 46)%N then Some AfterPoint else if e then Some AfterE else None
  | IntDigits =>
      if is_digit c then Some IntDigits
      else if (c =? 46)%N then Some AfterPoint
      else if e then Some AfterE else None
  | AfterPoint => if is_digit c then Some FracDigits else None
  | FracDigits =>
      if is_digit c then Some FracDigits else if e then Some AfterE else None
  | AfterE =>
      if is_digit c then Some ExpDigits
      else if ((c =? 43) || (c =? 45))%N then Some AfterESign else None
  | AfterESign => if is_digit c then Some ExpDigits else None
  | ExpDigits => if is_digit c then Some ExpDigits else None
  end.

(** What the scanner is in the middle of. [acc] holds the characters
    read so far, last first. *)
Inductive scanning : Type :=
| Between
| InString (acc : list N) (escaped : bool)
| InNumber (ph : number_phase) (acc : list N)
| InName (rest : list N) (v : json).

(** A character met between tokens. *)
Definition start (c : N) : option (list token * scanning) :=
  if is_json_ws c then Some ([], Between)
  else if (c =? 91)%N then Some ([TLBracket], Between)
  else if (c =? 93)%N then Some ([TRBracket], Between)
  else if (c =? 123)%N then Some ([TLBrace], Between)
  else if (c =? 125)%N then Some ([TRBrace], Between)
  else if (c =? 44)%N then Some ([TComma], Between)
  else if (c =? 58)%N then Some ([TColon], Between)
  else if (c =? 34)%N then Some ([], InString [] false)
  else if (c =? 45)%N then Some ([], InNumber AfterMinus [c])
  else if (c =? 48)%N then Some ([], InNumber LeadingZero [c])
  else if is_digit c then Some ([], InNumber IntDigits [c])
  else if (c =? 110)%N then Some ([], InName (codes "ull") JNull)
  else if (c =? 116)%N then Some ([], InName (codes "rue") (JBool true))
  else if (c =? 102)%N then Some ([], InName (codes "alse") (JBool false))
  else if (c =? 78)%N then Some ([], InName (codes "aN") (JNumber (codes "NaN")))
  else if (c =? 73)%N
  then Some ([], InName (codes "nfinity") (JNumber (codes "Infinity")))
  else None.

(** One character of the text. Inside a string literal a raw control
    character is an error (strict mode) and the character after a
    backslash is taken whatever it is; the literal is decoded when its
    closing quote is met. A number ends before the first character that
    cannot continue it. *)
Definition step (st : scanning) (c : N) : option (list token * scanning) :=
  match st with
  | Between => start c
  | InString acc escaped =>
      if escaped then Some ([], InString (c :: acc) false)
      else if (c =? 34)%N then
        match decode_string (rev acc) with
        | Some s => Some ([TValue (JString s)], Between)
        | None => None
        end
      else if (c =? 92)%N then Some ([], InString (c :: acc) true)
      else if (c <? 32)%N then None
      else Some ([], InString (c :: acc) false)
  | InNumber ph acc =>
      match number_step ph c with
      | Some ph' => Some ([], InNumber ph' (c :: acc))
      | None =>
          if complete ph then
            match start c with
            | Some (ts, st') => Some (TValue (JNumber (rev acc)) :: ts, st')
            | None => None
            end
          else
            match ph with
            | AfterMinus =>
                if (c =? 73)%N
                then Some ([], InName (codes "nfinity") (JNumber (codes "-Infinity")))
                else None
            | _ => None
            end
      end
  | InName rest v =>
      match rest with
      | [] => None
      | x :: rest' =>
          if (c =? x)%N then
            match rest' with
            | [] => Some ([TValue v], Between)
            | _ :: _ => Some ([], InName rest' v)
            end
          else None
      end
  end.

(** The tokens of a text; [out] holds the tokens met so far, last first. *)
Fixpoint scan (st : scanning) (out : list token) (text : unicode)
  : option (list token) :=
  match text with
  | [] =>
      match st with
      | Between => Some (rev out)
      | InNumber ph acc =>
          if complete ph then Some (rev (TValue (JNumber (rev acc)) :: out)) else None
      | _ => None
      end
  | c :: text' =>
      match step st c with
      | Some (ts, st') => scan st' (rev ts ++ out) text'
      | None => None
      end
  end.

(** An array or object whose end has not been met: the items read so
    far, last first, and for an object the key whose value is being
    read. *)
Inductive frame : Type :=
| InArray (items : list json)
| InObject (members : list (unicode * json)) (key : option unicode).

(** What may come next. [may_close] holds just after the opening
    bracket, when the container may end at once. *)
Inductive expecting : Type :=
| AValue (may_close : bool)
| AKey (may_close : bool)
| AColon
| ASeparator
| TheEnd (v : json).

(** A value is complete: it goes into the container around it. *)
Definition complete_value (v : json) (stack : list frame)
  : option (list frame * expecting) :=
  match stack with
  | [] => Some ([], TheEnd v)
  | InArray items :: stack' => Some (InArray (v :: items) :: stack', ASeparator)
  | InObject members (Some k) :: stack' =>
      Some (InObject ((k, v) :: members) None :: stack', ASeparator)
  | InObject _ None :: _ => None
  end.

Definition parse_step (s : list frame * expecting) (t : token)
  : option (list frame * expecting) :=
  let '(stack, e) := s in
  match e, t with
  | AValue _, TValue v => complete_value v stack
  | AValue _, TLBracket => Some (InArray [] :: stack, AValue true)
  | AValue _, TLBrace => Some (InObject [] None :: stack, AKey true)
  | AValue true, TRBracket =>
      match stack with
      | InArray _ :: stack' => complete_value (JArray []) stack'
      | _ => None
      end
  | AKey _, TValue (JString k) =>
      match stack with
      | InObject members _ :: stack' => Some (InObject members (Some k) :: stack', AColon)
      | _ => None
      end
  | AKey true, TRBrace =>
      match stack with
      | InObject _ _ :: stack' => complete_value (JObject []) stack'
      | _ => None
      end
  | AColon, TColon => Some (stack, AValue false)
  | ASeparator, TComma =>
      match stack with
      | InArray _ :: _ => Some (stack, AValue false)
      | InObject _ _ :: _ => Some (stack, AKey false)
      | [] => None
      end
  | ASeparator, TRBracket =>
      match stack with
      | InArray items :: stack' => complete_value (JArray (rev items)) stack'
      | _ => None
      end
  | ASeparator, TRBrace =>
      match stack with
      | InObject members _ :: stack' => complete_value (JObject (rev members)) stack'
      | _ => None
      end
  | _, _ => None
  end.

Fixpoint parse_from (s : list frame * expecting) (ts : list token) : option json :=
  match ts with
  | [] => match s with ([], TheEnd v) => Some v | _ => None end
  | t :: ts' =>
      match parse_step s t with
      | Some s' => parse_from s' ts'
      | None => None
      end
  end.

Definition parse (ts : list token) : option json := parse_from ([], AValue false) ts.

(** [json.loads(text)]. The interpreter's limits on the digits of an
    integer and on the depth of nesting are not modelled. *)
Definition json_loads (text : unicode) : result json :=
  match scan Between [] text ≫= parse with
  | Some v => Ok v
  | None => Raise JSONDecodeError
  end.

(** [json.load(f)] on the bytes of the file: read the text, then parse
    it. *)
Definition json_load (data : string) : result json :=
  match utf8_decode (codes data) with
  | Some text => json_loads text
  | None => Raise UnicodeDecodeError
  end.

Definition hashable (v : json) : bool :=
  match v with
  | JArray _ | JObject _ => false
  | _ => true
  end.

Definition as_str (v : json) : option unicode :=
  match v with
  | JString s => Some s
  | _ => None
  end.

(** [set(v)]: the items of an array, the keys of an object, the
    characters of a string. Any other value cannot be iterated, and an
    array or object among the items of an array cannot be a member of a
    set: both raise. Of the members only the strings are kept: an
    identity is a string and equals no number, [true], [false] or [null],
    so these take no part in what the sweep decides. *)
Definition set_of (v : json) : result (gset unicode) :=
  match v with
  | JArray items =>
      if forallb hashable items then Ok (list_to_set (omap as_str items))
      else Raise TypeError
  | JObject members => Ok (list_to_set members.*1)
  | JString s => Ok (list_to_set ((λ c, [c]) <$> s))
  | JNull | JBool _ | JNumber _ => Raise TypeError
  end.

(** ** Persisted Ledger: [load_posted_items], [save_posted_items] *)

Definition posted_file : string := "posted_items.json".

(** [fs] holds the files of the working directory: path to bytes. The
    Ledger is [set(json.load(f))], kept as the set of the strings it
    holds; every exception on the way is caught and leaves the empty
    set. *)
Definition load_posted_items (fs : gmap string string) : gset unicode :=
  match fs !! posted_file with
  | Some data =>
      match json_load data with
      | Ok v =>
          match set_of v with
          | Ok s => s
          | Raise _ => ∅
          end
      | Raise _ => ∅
      end
  | None => ∅
  end.

(** How the write goes: it completes, [open] raises and leaves the file
    alone, or the write stops after [n] characters. *)
Inductive write_outcome : Type :=
| Written
| OpenFails
| Interrupted (n : nat).

Definition save_posted_items (io : write_outcome) (posted_items : gset unicode)
    (fs : gmap string string) : gmap string string :=
  let text := json_dump (elements posted_items) in
  match io with
  | Written => <[posted_file := text]> fs
  | OpenFails => fs
  | Interrupted n => <[posted_file := String.substring 0 n text]> fs
  end.

(** ** Run orchestrator: [scrape_free_items], [main] *)

Definition webhook_url : string :=
  "https://discord.com/api/webhooks/1390384861101035600/gehtJILtdByfCLmW-pmLYc8haQlBsYLzPBxKqfsoQAfdoDPMK5c1fR6CpkVB7JVAnJ7S".

Definition priority_urls : list string :=
  [ "https://www.elderscrollsonline.com/en-us/crownstore/category/159";
    "https://www.elderscrollsonline.com/en-us/crownstore/category/78";
    "https://www.elderscrollsonline.com/en-us/crownstore/category/78#quest-starters";
    "https://www.elderscrollsonline.com/en-us/crownstore/category/78#currency";
    "https://www.elderscrollsonline.com/en-us/crownstore/category/71";
    "https://www.elderscrollsonline.com/en-us/crownstore/category/1";
    "https://www.elderscrollsonline.com/en-us/crownstore/eso-plus" ].

(** [./ancestor::*[contains(@class, 'item') or contains(@class, 'product')
    or contains(@class, 'card')]] *)
Definition xp_container : rel_xpath :=
  Ancestor (XOr (XOr (ContainsAttr "class" "item") (ContainsAttr "class" "product"))
                (ContainsAttr "class" "card")).

(** The identity under which an item is remembered, as a member of the
    Ledger. *)
Definition item_id (it : item_details) : unicode :=
  codes (name it +:+ "-" +:+ str_of_bool (is_eso_plus_free it)).

(** What a run is given: the storefront as the session will see it, the
    notification channel's reply to the [n]-th post, the clock at the
    [n]-th navigation, the files present at the start and the fate of the
    Ledger write. *)
Record world : Type := {
  w_storefront : nat → string → result page;
  w_post : nat → string → discord_message → result Z;
  w_now : nat → string;
  w_disk : gmap string string;
  w_write : write_outcome
}.

(** The variables of [scrape_free_items] that change during the sweep.
    [dispatched] lists the calls of [send_item_to_discord] with what each
    returned; [classified] lists the records [extract_item_details]
    returned. Both are traces: the source does not keep them. *)
Record sweep : Type := {
  drv : driver;
  free_items : list item_details;
  processed_urls : gset string;
  new_posted_items : gset unicode;
  dispatched : list (item_details * bool);
  classified : list item_details
}.

(** The body of [for element in free_elements]: the address of the first
    item link inside the element's container joins the page's set. *)
Definition collect_item_url (item_urls_to_check : gset string)
    (element : WebElement) : gset string :=
  match element_find_element element xp_container with
  | Raise _ => item_urls_to_check
  | Ok item_container =>
      match element_find_elements item_container xp_links with
      | Raise _ => item_urls_to_check
      | Ok link_elements =>
          match first_item_href link_elements with
          | Some href => {[ href ]} ∪ item_urls_to_check
          | None => item_urls_to_check
          end
      end
  end.

(** The body of [for item_url in item_urls_to_check]. *)
Definition process_item (w : world) (posted_items : gset unicode) (page_url : string)
    (st : sweep) (item_url : string) : sweep :=
  if bool_decide (item_url ∈ processed_urls st) then st
  else
    let processed := {[ item_url ]} ∪ processed_urls st in
    let '(r, d) := extract_item_details (drv st) (w_now w (visits (drv st)))
                     None page_url (Some item_url) in
    match r with
    | None =>
        {| drv := d; free_items := free_items st; processed_urls := processed;
           new_posted_items := new_posted_items st; dispatched := dispatched st;
           classified := classified st |}
    | Some it =>
        if bool_decide (item_id it ∉ posted_items) then
          let sent :=
            if truthy (Some webhook_url)
            then [(it, send_item_to_discord (w_post w (length (dispatched st)))
                                            it webhook_url)]
            else [] in
          {| drv := d; free_items := free_items st ++ [it];
             processed_urls := processed;
             new_posted_items := {[ item_id it ]} ∪ new_posted_items st;
             dispatched := dispatched st ++ sent;
             classified := classified st ++ [it] |}
        else
          {| drv := d; free_items := free_items st; processed_urls := processed;
             new_posted_items := new_posted_items st; dispatched := dispatched st;
             classified := classified st ++ [it] |}
    end.

(** The body of [for url in urls_to_check]. *)
Definition sweep_page (w : world) (posted_items : gset unicode) (st : sweep)
    (page_url : string) : sweep :=
  let '(loaded, d) := driver_get (drv st) page_url in
  let st := {| drv := d; free_items := free_items st;
               processed_urls := processed_urls st;
               new_posted_items := new_posted_items st;
               dispatched := dispatched st; classified := classified st |} in
  match loaded with
  | Raise _ => st
  | Ok pg =>
      match find_elements pg xp_free with
      | Raise _ => st
      | Ok free_elements =>
          let item_urls_to_check := fold_left collect_item_url free_elements ∅ in
          fold_left (process_item w posted_items page_url)
                    (elements item_urls_to_check) st
      end
  end.

(** [remaining_urls] and [urls_to_check]. *)
Definition remaining_urls (all_urls : list string) : list string :=
  filter (λ u, u ∉ priority_urls) all_urls.

Definition urls_to_check (all_urls : list string) : list string :=
  priority_urls ++ remaining_urls all_urls.

(** What a run leaves behind. *)
Record run : Type := {
  posted_items : gset unicode;    (* the Ledger as loaded *)
  inspected : list string;        (* [urls_to_check] *)
  final : sweep;                  (* the variables when the sweep ends *)
  disk : gmap string string       (* the files after the Ledger write *)
}.

Definition scrape_free_items (w : world) : run :=
  let d := {| storefront := w_storefront w; visits := 0; history := [] |} in
  let posted := load_posted_items (w_disk w) in
  let st := {| drv := d; free_items := []; processed_urls := ∅;
               new_posted_items := posted; dispatched := []; classified := [] |} in
  let '(all_urls, d) := get_all_crownstore_urls (drv st) in
  let st := {| drv := d; free_items := free_items st;
               processed_urls := processed_urls st;
               new_posted_items := new_posted_items st;
               dispatched := dispatched st; classified := classified st |} in
  let st := fold_left (sweep_page w posted) (urls_to_check all_urls) st in
  {| posted_items := posted;
     inspected := urls_to_check all_urls;
     final := st;
     disk := save_posted_items (w_write w) (new_posted_items st) (w_disk w) |}.

(** [main]: the list [scrape_free_items] returns is what is written to
    [eso-free-items.json]. *)
Definition output_artifact (w : world) : list item_details :=
  free_items (final (scrape_free_items w)).

(** * Notions used to state the properties *)

(** The elements [//*[contains(text(), 'FREE!')]] selects. *)
Definition free_markers (pg : page) : list WebElement :=
  filter (λ e, holds (ContainsText "FREE!") e) (all_elements pg).

(** The elements whose text holds both the marker and the deal phrase. *)
Definition deal_texts (pg : page) : list WebElement :=
  filter (λ e, holds (XAnd (ContainsText "FREE!") (ContainsText "With ESO Plus Deal")) e)
         (all_elements pg).

(** The entry the image step writes for an image, if it writes one: the
    address must be non-empty, contain [akamaihd.net] and [/ape/uploads/]
    and not [icon-crown]; the area is the product of the two sides when
    both exceed 100, and 0 when the size cannot be read. *)
Definition recorded (img : WebElement) : option (string * Z) :=
  match get_attribute img "src" with
  | None => None
  | Some s =>
      if negb (String.eqb s EmptyString) && str_in "akamaihd.net" s
         && str_in "/ape/uploads/" s && negb (str_in "icon-crown" s)
      then
        match element_size img with
        | Ok (w, h) => if (100 <? w) && (100 <? h) then Some (s, w * h) else None
        | Raise _ => Some (s, 0)
        end
      else None
  end.

(** [a] is the area of the last image of [imgs] recorded under [u]. *)
Definition last_recorded (imgs : list WebElement) (u : string) (a : Z) : Prop :=
  ∃ before img after,
    imgs = before ++ img :: after ∧ recorded img = Some (u, a)
    ∧ ∀ img' a', img' ∈ after → recorded img' ≠ Some (u, a').

(** [d[k]] *)
Fixpoint dict_get (k : string) (d : list (string * Z)) : option Z :=
  match d with
  | [] => None
  | (k', v) :: d' => if String.eqb k k' then Some v else dict_get k d'
  end.

(** A [str]: every code point is below 0x110000. *)
Definition is_str (s : unicode) : bool := forallb (λ c, c <? 0x110000)%N s.

(** Does the string begin with a low surrogate? *)
Definition low_head (s : unicode) : bool :=
  match s with
  | [] => false
  | b :: _ => is_low b
  end.

(** No high surrogate is directly followed by a low surrogate. *)
Fixpoint unpaired (s : unicode) : bool :=
  match s with
  | [] => true
  | a :: s' => negb (is_high a && low_head s') && unpaired s'
  end.

(** A [str] without a high surrogate directly followed by a low one. *)
Definition well_formed (s : unicode) : Prop := is_str s = true ∧ unpaired s = true.

(** The pieces the escaped form of a character is read back as. *)
Definition pieces_of (c : N) : list piece :=
  if ((c =? 34) || (c =? 92) || (c =? 10) || (c =? 13) || (c =? 9) || (c =? 8)
      || (c =? 12) || (32 <=? c) && (c <=? 126))%N then [Plain c]
  else if (c <? 0x10000)%N then [Escaped c]
  else [Escaped (0xD800 + (c - 0x10000) / 1024 mod 1024)%N;
        Escaped (0xDC00 + (c - 0x10000) mod 1024)%N].

(** The tokens of the items of an array after the first. *)
Definition item_tokens (l : list unicode) : list token :=
  flat_map (λ x, [TComma; TValue (JString x)]) l.

(** Every byte of the text is below 128. *)
Definition ascii_only (s : string) : Prop := Forall (λ b, (b < 128)%N) (codes s).

(** What the pieces of a string literal are when the text around it was
    read from a file: a character written as itself is no surrogate, and
    the number of an escape has four hexadecimal digits. *)
Definition piece_ok (p : piece) : Prop :=
  match p with
  | Plain c => is_scalar c = true
  | Escaped u => (u < 65536)%N
  end.

(** The strings of a value that [set_of] can reach are well formed: the
    value itself, the items of an array, the keys of an object. *)
Definition item_sound (v : json) : Prop := ∀ s, v = JString s → well_formed s.

Definition sound (v : json) : Prop :=
  match v with
  | JString s => well_formed s
  | JArray items => Forall item_sound items
  | JObject members => Forall (λ kv, well_formed kv.1) members
  | _ => True
  end.

(** The same of a token, of what the scanner is in the middle of, and
    of the containers the parser has open. *)
Definition token_sound (t : token) : Prop :=
  match t with
  | TValue v => sound v
  | _ => True
  end.

Definition scanning_sound (st : scanning) : Prop :=
  match st with
  | InString acc _ => Forall (λ c, is_scalar c = true) acc
  | InName _ v => sound v
  | _ => True
  end.

Definition frame_sound (f : frame) : Prop :=
  match f with
  | InArray items => Forall item_sound items
  | InObject members key =>
      Forall (λ kv, well_formed kv.1) members ∧ ∀ k, key = Some k → well_formed k
  end.

Definition state_sound (s : list frame * expecting) : Prop :=
  Forall frame_sound s.1 ∧ match s.2 with TheEnd v => sound v | _ => True end.

(** The invariant of the sweep with respect to the Ledger as loaded. *)
Record sweep_inv (posted : gset unicode) (st : sweep) : Prop := {
  inv_free : free_items st = filter (λ it, item_id it ∉ posted) (classified st);
  inv_sent : (dispatched st).*1 = free_items st;
  inv_new : new_posted_items st = posted ∪ list_to_set (item_id <$> free_items st)
}.

(** Where the session has been once the sweep has inspected the pages
    [inspected_pages]: at the root listing address for discovery, then at
    each page in turn, after each at the detail addresses [details] holds
    for it; these are the addresses in [processed_urls], each gone to
    once. *)
Definition navigated (inspected_pages : list string) (st : sweep) : Prop :=
  ∃ details : list (list string),
    length details = length inspected_pages
    ∧ history (drv st) = root_url :: concat (zip_with cons inspected_pages details)
    ∧ NoDup (concat details)
    ∧ ∀ u, u ∈ concat details ↔ u ∈ processed_urls st.

(** The same world with another notification channel. *)
Definition with_post (w : world) (post : nat → string → discord_message → result Z)
  : world :=
  {| w_storefront := w_storefront w; w_post := post; w_now := w_now w;
     w_disk := w_disk w; w_write := w_write w |}.

(** Two sweeps that differ at most in what the channel answered. *)
Definition same_but_replies (st st' : sweep) : Prop :=
  drv st = drv st' ∧ free_items st = free_items st'
  ∧ processed_urls st = processed_urls st'
  ∧ new_posted_items st = new_posted_items st'
  ∧ (dispatched st).*1 = (dispatched st').*1
  ∧ classified st = classified st'.

(** A session that renders [pg] whatever the address. *)
Definition serving (pg : page) : driver :=
  {| storefront := λ _ _, Ok pg; visits := 0; history := [] |}.

(** The session of a run before its first navigation. *)
Definition fresh_session (w : world) : driver :=
  {| storefront := w_storefront w; visits := 0; history := [] |}.

(** Image selection as the specification words it: a candidate is an
    image whose address contains the asset-path segment and not the
    currency icon and whose two sides both exceed 100; the selected
    address is that of a candidate of greatest area, and there is none
    exactly when there is no candidate. *)
Definition stated_candidate (img : WebElement) : option (string * Z) :=
  match get_attribute img "src", element_size img with
  | Some s, Ok (w, h) =>
      if str_in "/ape/uploads/" s && negb (str_in "icon-crown" s)
         && (100 <? w) && (100 <? h)
      then Some (s, w * h) else None
  | _, _ => None
  end.

Definition stated_image_url (pg : page) (r : option string) : Prop :=
  let imgs := filter (λ e, has_tag "img" e) (all_elements pg) in
  match r with
  | None => ∀ img, img ∈ imgs → stated_candidate img = None
  | Some u =>
      ∃ img a, img ∈ imgs ∧ stated_candidate img = Some (u, a)
        ∧ ∀ img' u' a', img' ∈ imgs → stated_candidate img' = Some (u', a') → a' ≤ a
  end.

(** * Sample pages and runs *)

Definition elem (tag cls : string) (cs : list node) : node :=
  Element tag [("class", cls)] (Ok (0, 0)) cs.

Definition heading (s : string) : node :=
  Element "h1" [] (Ok (0, 0)) [Text s].

Definition image (src : string) (w h : Z) : node :=
  Element "img" [("src", src)] (Ok (w, h)) [].

Definition image_unreadable (src : string) : node :=
  Element "img" [("src", src)] (Raise WebDriverException) [].

Definition html (body : list node) : page :=
  {| document := Element "html" [] (Ok (0, 0)) [Element "body" [] (Ok (0, 0)) body] |}.

Definition item_1 : string :=
  "https://www.elderscrollsonline.com/en-us/crownstore/item/1001".
Definition item_2 : string :=
  "https://www.elderscrollsonline.com/en-us/crownstore/item/1002".
Definition companions : string :=
  "https://www.elderscrollsonline.com/en-us/crownstore/category/159".
Definition noon : string := "2025-01-01 12:00:00".

Definition asset_small : string := "https://esosslfiles-a.akamaihd.net/ape/uploads/small.png".
Definition asset_mid : string := "https://esosslfiles-a.akamaihd.net/ape/uploads/mid.png".
Definition asset_big : string := "https://esosslfiles-a.akamaihd.net/ape/uploads/big.png".
Definition asset_elsewhere : string := "https://cdn.example.com/ape/uploads/big.png".

(** A free-for-all item. *)
Definition detail_free : page :=
  html [ heading "Nightmare Senche"; elem "div" "price" [Text "FREE!"] ].

(** The marker sits inside a loyalty block; three images of 50x50,
    150x150 and 300x200. *)
Definition detail_loyalty : page :=
  html [ heading "  Sword of Testing  ";
         elem "div" "price eso-plus-loyalty" [ elem "span" "amount" [Text "FREE!"] ];
         image asset_small 50 50; image asset_mid 150 150; image asset_big 300 200 ].

(** A loyalty block elsewhere on the page, away from the marker. *)
Definition detail_elsewhere : page :=
  html [ heading "Nightmare Senche";
         elem "div" "price" [Text "FREE!"];
         elem "div" "promo eso-plus-loyalty" [Text "With ESO Plus Deal"] ].

Definition detail_no_marker : page :=
  html [ heading "Nightmare Senche"; elem "div" "price" [Text "1,500 Crowns"] ].

Definition detail_chrome : page :=
  html [ heading "Crown Store"; elem "div" "price" [Text "FREE!"] ].

(** The marker and the deal phrase in one element, parted by a line
    break. *)
Definition detail_split : page :=
  html [ heading "Nightmare Senche";
         elem "span" "price" [ Text "FREE!"; Element "br" [] (Ok (0, 0)) [];
                               Text "With ESO Plus Deal" ] ].

(** One large image served from another host. *)
Definition detail_other_host : page :=
  html [ heading "Nightmare Senche"; elem "div" "price" [Text "FREE!"];
         image asset_elsewhere 300 200 ].

(** One image whose size cannot be read. *)
Definition detail_unreadable : page :=
  html [ heading "Nightmare Senche"; elem "div" "price" [Text "FREE!"];
         image_unreadable asset_big ].

(** The same address shown large first and smaller later. *)
Definition detail_repeated : page :=
  html [ heading "Nightmare Senche"; elem "div" "price" [Text "FREE!"];
         image asset_big 300 300; image asset_mid 200 200; image asset_big 150 150 ].

Definition card (href : string) : node :=
  elem "div" "crown-store-item" [
    Element "a" [("href", href)] (Ok (0, 0)) [Text "Nightmare Senche"];
    elem "span" "price" [Text "FREE!"] ].

Definition listing_one : page := html [ card item_1 ].
Definition listing_two : page := html [ card item_1; card item_2 ].

(** A storefront whose root page times out, whose companions category
    shows [listing] and whose item pages all show [detail_free]. *)
Definition shop (listing : page) (n : nat) (u : string) : result page :=
  if String.eqb u companions then Ok listing
  else if startswith u "https://www.elderscrollsonline.com/en-us/crownstore/item/"
       then Ok detail_free
       else Raise TimeoutException.

Definition accepts : nat → string → discord_message → result Z := λ _ _ _, Ok 204.
Definition rejects : nat → string → discord_message → result Z := λ _ _ _, Ok 500.

(** An empty Ledger and two item pages that show the same name. *)
Definition world_two : world :=
  {| w_storefront := shop listing_two; w_post := accepts; w_now := λ _, noon;
     w_disk := ∅; w_write := Written |}.

(** The only free item is already in the Ledger. *)
Definition world_known : world :=
  {| w_storefront := shop listing_one; w_post := accepts; w_now := λ _, noon;
     w_disk := {[ posted_file := json_dump [codes "Nightmare Senche-False"] ]};
     w_write := Written |}.



(** Ledger files that hold something else than an array of strings: an
    object, a string, an array of a number, a string and [null], an array
    in an array, a number. *)
Definition file_object : string :=
  "{" +:+ dq +:+ "a" +:+ dq +:+ ": 1, " +:+ dq +:+ "b" +:+ dq +:+ ": [2]}".
Definition file_string : string := dq +:+ "ab" +:+ dq.
Definition file_mixed : string := "[1, " +:+ dq +:+ "x" +:+ dq +:+ ", null]".
Definition file_nested : string := "[[" +:+ dq +:+ "x" +:+ dq +:+ "]]".
Definition file_number : string := "5".

(** One new item and a channel that refuses every message. *)
Definition world_mute : world :=
  {| w_storefront := shop listing_one; w_post := rejects; w_now := λ _, noon;
     w_disk := ∅; w_write := Written |}.

Definition senche (u : string) : item_details :=
  {| name := "Nightmare Senche"; url := u; category_url := companions;
     image_url := None; is_eso_plus_free := false; found_date := noon |}.

(** * Notions used to state the further properties *)

(** Does the element's class name mark it as an item container? *)
Definition container_class (c : WebElement) : bool :=
  str_in "item" (xp_attr c "class") || str_in "product" (xp_attr c "class")
  || str_in "card" (xp_attr c "class").

(** [x] is the first element of [l] on which [P] holds. *)
Definition first_where {A : Type} (P : A → bool) (l : list A) (x : A) : Prop :=
  ∃ before after, l = before ++ x :: after ∧ P x = true
                  ∧ ∀ b, b ∈ before → P b = false.

(** Is the element a link to an item detail page? *)
Definition item_link (link : WebElement) : bool :=
  str_in "/crownstore/item/" (default EmptyString (get_attribute link "href")).

(** The links below an element, in document order. *)
Definition links_below (c : WebElement) : list WebElement :=
  filter (λ d, has_tag "a" d && holds (HasAttr "href") d) (descendants c).

(** The detail-page addresses the sweep collects from a listing page. *)
Definition collected (pg : page) : gset string :=
  fold_left collect_item_url (free_markers pg) ∅.

(** The marker [m] leads to the address [u]: the outermost container
    above [m] has a first item link, and [u] is its address. *)
Definition leads_to (m : WebElement) (u : string) : Prop :=
  ∃ c link, first_where container_class (ancestors m) c
            ∧ first_where item_link (links_below c) link
            ∧ get_attribute link "href" = Some u.

(** Does the element's text, trimmed, pass the test on names? *)
Definition has_name (e : WebElement) : bool := name_ok (strip (text e)).

(** The tags of the name selectors the browser accepts, in order. *)
Definition heading_tags : list string := ["h1"; "h2"; "h3"].

(** The elements [//tag] selects. *)
Definition tagged (tag : string) (pg : page) : list WebElement :=
  filter (λ e, has_tag tag e) (all_elements pg).

(** Is the string empty or begun by a character that is not whitespace? *)
Definition clean_head (s : string) : bool :=
  match s with
  | EmptyString => true
  | String c _ => negb (is_py_space c)
  end.

(** A record without its time stamp. *)
Definition undated (it : item_details) : item_details :=
  {| name := name it; url := url it; category_url := category_url it;
     image_url := image_url it; is_eso_plus_free := is_eso_plus_free it;
     found_date := EmptyString |}.

(** Two sweeps that went the same way through the storefront. *)
Definition same_course (st st' : sweep) : Prop :=
  drv st = drv st' ∧ processed_urls st = processed_urls st'
  ∧ undated <$> classified st = undated <$> classified st'.

(** What the sweep keeps true of the records it has classified and of the
    session, [pages] being the listing pages it goes through. *)
Record course_inv (pages : list string) (st : sweep) : Prop := {
  ci_urls : NoDup (url <$> classified st);
  ci_processed : ∀ it, it ∈ classified st → url it ∈ processed_urls st;
  ci_item : ∀ it, it ∈ classified st → str_in "/crownstore/item/" (url it) = true;
  ci_page : ∀ it, it ∈ classified st → category_url it ∈ pages;
  ci_name : ∀ it, it ∈ classified st → name_ok (name it) = true
}.

(** Every notification got the reply the channel gave to the post of
    its rank. *)
Definition replies_inv (w : world) (st : sweep) : Prop :=
  ∀ i it b, dispatched st !! i = Some (it, b) →
            b = send_item_to_discord (w_post w i) it webhook_url.

(** More sample pages and runs. *)

Definition events : string :=
  "https://www.elderscrollsonline.com/en-us/crownstore/category/71".
Definition featured : string :=
  "https://www.elderscrollsonline.com/en-us/crownstore/category/36".

(** A root page with a priority link, another store link, a link that
    leaves the store and an anchor without address. *)
Definition root_page : page :=
  html [ Element "a" [("href", events)] (Ok (0, 0)) [Text "Events"];
         Element "a" [("href", featured)] (Ok (0, 0)) [Text "Featured"];
         Element "a" [("href", "https://example.com/")] (Ok (0, 0)) [Text "Elsewhere"];
         Element "a" [] (Ok (0, 0)) [Text "Top"] ].

(** The first heading is storefront chrome, the name is in the second. *)
Definition detail_second_heading : page :=
  html [ heading "Crown Store";
         Element "h2" [] (Ok (0, 0)) [Text "Ayleid Throne"];
         elem "div" "title" [Text "Not a heading"];
         elem "div" "price" [Text "FREE!"] ].

Definition card_handle : WebElement :=
  {| we_node := card item_1; we_ancestors := [] |}.

(** The run after [world_two], on the files it left, with a channel that
    refuses every message. *)
Definition world_two_again : world :=
  {| w_storefront := shop listing_two; w_post := rejects; w_now := λ _, noon;
     w_disk := disk (scrape_free_items world_two); w_write := Written |}.

(** * Lemmas *)

(** Arithmetic with division and remainder by constants. *)
Ltac divmod := zify; Z.to_euclidean_division_equations; lia.

(** ** Writing a string and reading it back *)

Lemma append_assoc (a b c : string) : (a +:+ b) +:+ c = a +:+ (b +:+ c).
Proof.
  induction a as [|x a IH]; [reflexivity|].
  change (String x ((a +:+ b) +:+ c) = String x (a +:+ b +:+ c)).
  by rewrite IH.
Qed.

Lemma codes_app (a b : string) : codes (a +:+ b) = codes a ++ codes b.
Proof.
  unfold codes. induction a as [|x a IH]; [reflexivity|].
  change (String x a +:+ b) with (String x (a +:+ b)). cbn. by rewrite IH.
Qed.

Lemma codes_cons (x : ascii) (s : string) : codes (String x s) = N_of_ascii x :: codes s.
Proof. reflexivity. Qed.

Lemma unhex_hex_digit (d : N) :
  (d < 16)%N → unhex (N_of_ascii (hex_digit d)) = Some d.
Proof.
  intros Hd. unfold hex_digit.
  destruct (N.ltb_spec d 10).
  - rewrite N_ascii_embedding by lia. unfold unhex.
    destruct (N.leb_spec 48 (48 + d)); [|lia].
    destruct (N.leb_spec (48 + d) 57); [|lia]. cbn. f_equal. lia.
  - rewrite N_ascii_embedding by lia. unfold unhex.
    destruct (N.leb_spec (87 + d) 57); [lia|]. rewrite andb_false_r.
    destruct (N.leb_spec 97 (87 + d)); [|lia].
    destruct (N.leb_spec (87 + d) 102); [|lia]. cbn. f_equal. lia.
Qed.

Lemma pieces_u_escape (u : N) (rest : list N) :
  (u < 65536)%N →
  pieces (codes (u_escape u) ++ rest) = cons (Escaped u) <$> pieces rest.
Proof.
  intros Hu. unfold u_escape. rewrite codes_app.
  change (codes "\u") with [92; 117]%N. rewrite !codes_cons.
  change (codes EmptyString) with (@nil N). cbn [app pieces N.eqb Pos.eqb].
  rewrite !unhex_hex_digit by divmod.
  do 2 f_equal. f_equal. divmod.
Qed.

Lemma pieces_escape_char (c : N) (rest : list N) :
  pieces (codes (escape_char c) ++ rest) = app (pieces_of c) <$> pieces rest.
Proof.
  unfold escape_char, pieces_of.
  destruct (N.eqb_spec c 34) as [->|?]; [reflexivity|].
  destruct (N.eqb_spec c 92) as [->|?]; [reflexivity|].
  destruct (N.eqb_spec c 10) as [->|?]; [reflexivity|].
  destruct (N.eqb_spec c 13) as [->|?]; [reflexivity|].
  destruct (N.eqb_spec c 9) as [->|?]; [reflexivity|].
  destruct (N.eqb_spec c 8) as [->|?]; [reflexivity|].
  destruct (N.eqb_spec c 12) as [->|?]; [reflexivity|]. cbn [orb].
  destruct (N.leb_spec 32 c); cbn [andb].
  - destruct (N.leb_spec c 126).
    + rewrite codes_cons, N_ascii_embedding by lia. cbn [codes app].
      change (codes EmptyString) with (@nil N). cbn [app pieces].
      destruct (N.eqb_spec c 92); [done|reflexivity].
    + destruct (N.ltb_spec c 65536).
      * by rewrite pieces_u_escape.
      * rewrite codes_app, <-app_assoc, !pieces_u_escape by divmod.
        by destruct (pieces rest).
  - destruct (N.ltb_spec c 65536); [|lia]. by rewrite pieces_u_escape.
Qed.

Lemma pieces_escape (s : unicode) :
  pieces (codes (escape s)) = Some (s ≫= pieces_of).
Proof.
  induction s as [|c s IH]; [reflexivity|].
  cbn [escape]. rewrite codes_app, pieces_escape_char, IH. reflexivity.
Qed.

Lemma is_str_cons (c : N) (s : unicode) :
  is_str (c :: s) = true ↔ (c < 0x110000)%N ∧ is_str s = true.
Proof. unfold is_str. cbn [forallb]. rewrite andb_true_iff, N.ltb_lt. done. Qed.

(** The first piece of an escaped string is not the escape of a low
    surrogate unless the string begins with one. *)
Lemma pieces_of_head (s : unicode) :
  match s ≫= pieces_of with
  | Escaped v :: _ => is_low v = low_head s
  | _ => low_head s = false
  end.
Proof.
  destruct s as [|c s]; [reflexivity|]. cbn [mbind list_bind low_head]. unfold pieces_of.
  destruct (_ || _)%bool eqn:Hp.
  - cbn. unfold is_low.
    repeat (apply orb_prop in Hp as [Hp|Hp]);
      rewrite ?N.eqb_eq, ?andb_true_iff, ?N.leb_le in Hp;
      destruct (N.leb_spec 0xDC00 c); try lia; reflexivity.
  - destruct (N.ltb_spec c 65536); cbn; [reflexivity|].
    unfold is_low.
    destruct (N.leb_spec 56320 (55296 + (c - 65536) / 1024 mod 1024)); [divmod|].
    destruct (N.leb_spec 56320 c); [|lia].
    destruct (N.leb_spec c 57343); [lia|reflexivity].
Qed.

Lemma join_escaped_alone (u : N) (ps : list piece) :
  match ps with
  | Escaped v :: _ => is_high u && is_low v = false
  | _ => True
  end →
  join (Escaped u :: ps) = u :: join ps.
Proof.
  destruct ps as [|[c|v] ps]; [reflexivity..|]. intros H. cbn [join]. by rewrite H.
Qed.

Lemma join_pieces_of (c : N) (s : unicode) :
  (c < 0x110000)%N → is_high c && low_head s = false →
  join (pieces_of c ++ (s ≫= pieces_of)) = c :: join (s ≫= pieces_of).
Proof.
  intros Hc Hpair. pose proof (pieces_of_head s) as Hh.
  set (rest := s ≫= pieces_of) in *. unfold pieces_of.
  destruct (_ || _)%bool; [reflexivity|].
  destruct (N.ltb_spec c 65536).
  - cbn [app]. apply join_escaped_alone.
    destruct rest as [|[x|v] ps]; [done..|]. by rewrite Hh.
  - cbn [app join]. unfold is_high, is_low.
    set (hi := (55296 + (c - 65536) / 1024 mod 1024)%N).
    set (lo := (56320 + (c - 65536) mod 1024)%N).
    destruct (N.leb_spec 0xD800 hi); [|divmod].
    destruct (N.leb_spec hi 0xDBFF); [|divmod].
    destruct (N.leb_spec 0xDC00 lo); [|divmod].
    destruct (N.leb_spec lo 0xDFFF); [|divmod].
    cbn [andb]. f_equal. divmod.
Qed.

Lemma join_escape (s : unicode) :
  is_str s = true → unpaired s = true → join (s ≫= pieces_of) = s.
Proof.
  induction s as [|c s IH]; [reflexivity|].
  intros [Hc Hs]%is_str_cons Hu. cbn [unpaired] in Hu.
  apply andb_true_iff in Hu as [Hp Hu]. apply negb_true_iff in Hp.
  cbn [mbind list_bind]. rewrite join_pieces_of by done. by rewrite IH.
Qed.

(** Reading back the escaped form of a string gives the string. *)
Lemma decode_string_escape (s : unicode) :
  is_str s = true → unpaired s = true → decode_string (codes (escape s)) = Some s.
Proof.
  intros Hs Hu. unfold decode_string. rewrite pieces_escape. cbn. by rewrite join_escape.
Qed.

(** ** Scanning what [json_dump] writes *)

Lemma scan_step st out c text ts st' :
  step st c = Some (ts, st') → scan st out (c :: text) = scan st' (rev ts ++ out) text.
Proof. intros H. cbn [scan]. by rewrite H. Qed.

Lemma step_plain (acc : list N) (c : N) :
  (32 ≤ c)%N → c ≠ 34%N → c ≠ 92%N →
  step (InString acc false) c = Some ([], InString (c :: acc) false).
Proof.
  intros H1 H2 H3. cbn [step].
  destruct (N.eqb_spec c 34); [done|]. destruct (N.eqb_spec c 92); [done|].
  destruct (N.ltb_spec c 32); [lia|done].
Qed.

Lemma hex_digit_range (d : N) :
  (d < 16)%N →
  (48 ≤ N_of_ascii (hex_digit d) ≤ 57 ∨ 97 ≤ N_of_ascii (hex_digit d) ≤ 102)%N.
Proof.
  intros Hd. unfold hex_digit.
  destruct (N.ltb_spec d 10); rewrite N_ascii_embedding by lia; lia.
Qed.

Lemma scan_hex_digit (d : N) acc out rest :
  (d < 16)%N →
  scan (InString acc false) out (N_of_ascii (hex_digit d) :: rest)
  = scan (InString (N_of_ascii (hex_digit d) :: acc) false) out rest.
Proof.
  intros Hd%hex_digit_range.
  apply (scan_step _ _ _ _ []), step_plain; lia.
Qed.

Lemma scan_u_escape (u : N) acc out rest :
  scan (InString acc false) out (codes (u_escape u) ++ rest)
  = scan (InString (rev (codes (u_escape u)) ++ acc) false) out rest.
Proof.
  unfold u_escape. rewrite codes_app. change (codes "\u") with [92; 117]%N.
  rewrite !codes_cons. change (codes EmptyString) with (@nil N).
  cbn [app rev].
  rewrite (scan_step _ _ 92%N _ [] (InString (92%N :: acc) true)) by reflexivity.
  rewrite (scan_step _ _ 117%N _ [] (InString (117 :: 92 :: acc)%N false)) by reflexivity.
  cbn [rev app].
  rewrite !scan_hex_digit by divmod. reflexivity.
Qed.

Lemma scan_escape_char (c : N) acc out rest :
  scan (InString acc false) out (codes (escape_char c) ++ rest)
  = scan (InString (rev (codes (escape_char c)) ++ acc) false) out rest.
Proof.
  unfold escape_char.
  destruct (N.eqb_spec c 34) as [->|?]; [reflexivity|].
  destruct (N.eqb_spec c 92) as [->|?]; [reflexivity|].
  destruct (N.eqb_spec c 10) as [->|?]; [reflexivity|].
  destruct (N.eqb_spec c 13) as [->|?]; [reflexivity|].
  destruct (N.eqb_spec c 9) as [->|?]; [reflexivity|].
  destruct (N.eqb_spec c 8) as [->|?]; [reflexivity|].
  destruct (N.eqb_spec c 12) as [->|?]; [reflexivity|].
  destruct (N.leb_spec 32 c); cbn [andb].
  - destruct (N.leb_spec c 126).
    + rewrite codes_cons, N_ascii_embedding by lia.
      change (codes EmptyString) with (@nil N). cbn [app rev].
      by rewrite (scan_step _ _ c _ [] _ (step_plain acc c ltac:(lia) ltac:(lia) ltac:(lia))).
    + destruct (N.ltb_spec c 65536); [apply scan_u_escape|].
      rewrite codes_app, rev_app_distr, <-!app_assoc, !scan_u_escape. reflexivity.
  - destruct (N.ltb_spec c 65536); [|lia]. apply scan_u_escape.
Qed.

Lemma scan_escape (s : unicode) : ∀ acc out rest,
  scan (InString acc false) out (codes (escape s) ++ rest)
  = scan (InString (rev (codes (escape s)) ++ acc) false) out rest.
Proof.
  induction s as [|c s IH]; intros acc out rest; [reflexivity|].
  cbn [escape]. rewrite codes_app, <-app_assoc, scan_escape_char, IH.
  by rewrite rev_app_distr, <-app_assoc.
Qed.

Lemma scan_json_string (s : unicode) out rest :
  is_str s = true → unpaired s = true →
  scan Between out (codes (json_string s) ++ rest)
  = scan Between (TValue (JString s) :: out) rest.
Proof.
  intros Hs Hu. unfold json_string. rewrite !codes_app, <-!app_assoc.
  change (codes dq) with [34%N]. cbn [app].
  rewrite (scan_step _ _ 34%N _ [] (InString [] false)) by reflexivity.
  cbn [rev app]. rewrite scan_escape, app_nil_r.
  apply (scan_step _ _ _ _ [TValue (JString s)]). cbn [step].
  rewrite rev_involutive, decode_string_escape by done.
  reflexivity.
Qed.

Lemma scan_json_items (l : list unicode) : ∀ s out rest,
  Forall well_formed (s :: l) →
  scan Between out (codes (json_items s l) ++ rest)
  = scan Between (rev (item_tokens l) ++ TValue (JString s) :: out) rest.
Proof.
  induction l as [|x l IH]; intros s out rest Hl.
  - apply Forall_cons in Hl as [[? ?] _]. cbn [json_items]. by apply scan_json_string.
  - apply Forall_cons in Hl as [[? ?] Hl]. cbn [json_items].
    rewrite !codes_app, <-!app_assoc, scan_json_string by done.
    change (codes ",") with [44%N]. change (codes newline) with [10%N].
    change (codes "  ") with [32; 32]%N. cbn [app].
    rewrite (scan_step _ _ 44%N _ [TComma] Between) by reflexivity.
    rewrite (scan_step _ _ 10%N _ [] Between) by reflexivity.
    rewrite (scan_step _ _ 32%N _ [] Between) by reflexivity.
    rewrite (scan_step _ _ 32%N _ [] Between) by reflexivity.
    cbn [rev app]. rewrite IH by done.
    cbn [item_tokens flat_map app rev]. by rewrite <-!app_assoc.
Qed.

Lemma scan_json_dump (s : unicode) (l : list unicode) :
  Forall well_formed (s :: l) →
  scan Between [] (codes (json_dump (s :: l)))
  = Some (TLBracket :: TValue (JString s) :: item_tokens l ++ [TRBracket]).
Proof.
  intros Hl. unfold json_dump. rewrite !codes_app.
  change (codes "[") with [91%N]. change (codes newline) with [10%N].
  change (codes "  ") with [32; 32]%N. change (codes "]") with [93%N]. cbn [app].
  rewrite (scan_step _ _ 91%N _ [TLBracket] Between) by reflexivity.
  rewrite (scan_step _ _ 10%N _ [] Between) by reflexivity.
  rewrite (scan_step _ _ 32%N _ [] Between) by reflexivity.
  rewrite (scan_step _ _ 32%N _ [] Between) by reflexivity.
  cbn [rev app]. rewrite scan_json_items by done.
  cbn [app rev scan step start is_json_ws N.eqb Pos.eqb orb].
  f_equal. cbn [rev]. rewrite rev_app_distr, rev_involutive. reflexivity.
Qed.

(** ** Parsing the tokens of an array of strings *)

Lemma parse_item_tokens (l : list unicode) : ∀ items,
  parse_from ([InArray items], ASeparator) (item_tokens l ++ [TRBracket])
  = Some (JArray (rev items ++ (JString <$> l))).
Proof.
  induction l as [|x l IH]; intros items.
  - cbn. by rewrite app_nil_r.
  - cbn [item_tokens flat_map app parse_from parse_step complete_value].
    change (flat_map _ l) with (item_tokens l). rewrite IH.
    cbn [rev fmap list_fmap]. by rewrite <-app_assoc.
Qed.

Lemma parse_array_tokens (s : unicode) (l : list unicode) :
  parse (TLBracket :: TValue (JString s) :: item_tokens l ++ [TRBracket])
  = Some (JArray (JString <$> s :: l)).
Proof.
  unfold parse. cbn [parse_from parse_step complete_value].
  by rewrite parse_item_tokens.
Qed.

(** ** The bytes [json_dump] writes are ASCII *)

Lemma ascii_only_app (a b : string) : ascii_only a → ascii_only b → ascii_only (a +:+ b).
Proof. unfold ascii_only. rewrite codes_app. apply Forall_app_2. Qed.

Lemma ascii_only_u_escape (u : N) : ascii_only (u_escape u).
Proof.
  unfold ascii_only, u_escape. rewrite codes_app, !codes_cons.
  apply Forall_app_2; [by repeat constructor|].
  repeat (apply Forall_cons_2;
    [match goal with |- (N_of_ascii (hex_digit ?d) < _)%N =>
       pose proof (hex_digit_range d ltac:(divmod)); lia end|]).
  constructor.
Qed.

Lemma ascii_only_escape_char (c : N) : ascii_only (escape_char c).
Proof.
  unfold escape_char.
  repeat (case_match; [by repeat constructor|]).
  case_match eqn:Hp.
  - apply andb_true_iff in Hp as [_ Hp%N.leb_le].
    unfold ascii_only. rewrite codes_cons, N_ascii_embedding by lia.
    apply Forall_cons_2; [lia|constructor].
  - case_match; [|apply ascii_only_app]; apply ascii_only_u_escape.
Qed.

Lemma ascii_only_escape (s : unicode) : ascii_only (escape s).
Proof.
  induction s as [|c s IH]; [constructor|].
  apply ascii_only_app; [apply ascii_only_escape_char|done].
Qed.

Lemma ascii_only_json_string (s : unicode) : ascii_only (json_string s).
Proof.
  unfold json_string.
  repeat apply ascii_only_app; [by repeat constructor|apply ascii_only_escape|].
  by repeat constructor.
Qed.

Lemma ascii_only_json_items (l : list unicode) : ∀ s, ascii_only (json_items s l).
Proof.
  induction l as [|x l IH]; intros s; cbn [json_items].
  - apply ascii_only_json_string.
  - repeat first [apply ascii_only_json_string | apply IH | apply ascii_only_app];
      by repeat constructor.
Qed.

Lemma ascii_only_json_dump (l : list unicode) : ascii_only (json_dump l).
Proof.
  destruct l as [|s l]; [by repeat constructor|]. unfold json_dump.
  repeat first [apply ascii_only_json_items | apply ascii_only_app];
    by repeat constructor.
Qed.

Lemma utf8_decode_ascii (bs : list N) :
  Forall (λ b, (b < 128)%N) bs → utf8_decode bs = Some bs.
Proof.
  induction 1 as [|b bs Hb _ IH]; [reflexivity|]. cbn [utf8_decode].
  destruct (N.ltb_spec b 128); [|lia]. by rewrite IH.
Qed.

(** What is written loads back as the list that was written. *)
Lemma json_load_dump (l : list unicode) :
  Forall well_formed l →
  json_load (json_dump l) = Ok (JArray (JString <$> l)).
Proof.
  intros Hl. unfold json_load, json_loads.
  rewrite utf8_decode_ascii by apply ascii_only_json_dump.
  destruct l as [|s l]; [reflexivity|].
  rewrite scan_json_dump by done. cbn [mbind option_bind].
  by rewrite parse_array_tokens.
Qed.

(** ** What is read is well formed *)

Lemma utf8_decode_scalar : ∀ (n : nat) (bs : list N) (text : unicode),
  (length bs ≤ n)%nat → utf8_decode bs = Some text →
  Forall (λ c, is_scalar c = true) text.
Proof.
  induction n as [|n IH]; intros bs text Hn.
  { destruct bs; [|cbn in Hn; lia]. intros [= <-]. constructor. }
  destruct bs as [|b0 bs1]; [intros [= <-]; constructor|]. cbn in Hn.
  cbn [utf8_decode]. destruct (N.ltb_spec b0 128) as [H0|H0].
  { intros (t & Ht & ->)%fmap_Some. constructor; [|apply (IH bs1); [lia|done]].
    unfold is_scalar. destruct (N.ltb_spec b0 55296); [done|lia]. }
  destruct bs1 as [|b1 bs2]; [done|]. cbn in Hn.
  destruct (is_continuation b1) eqn:H1; [|done]. cbn [negb].
  apply andb_true_iff in H1 as [H1a%N.leb_le H1b%N.leb_le].
  destruct (_ && _)%bool eqn:H2 in |- *.
  { apply andb_true_iff in H2 as [?%N.leb_le ?%N.leb_le].
    intros (t & Ht & ->)%fmap_Some. constructor; [|apply (IH bs2); [lia|done]].
    unfold is_scalar. apply orb_true_iff. left. apply N.ltb_lt. lia. }
  destruct bs2 as [|b2 bs3]; [done|]. cbn in Hn.
  destruct (is_continuation b2); [|done]. cbn [negb].
  destruct (_ && _)%bool in |- *.
  { cbn zeta. destruct (_ && _)%bool eqn:Hc in |- *; [|done].
    apply andb_true_iff in Hc as [_ Hc].
    intros (t & Ht & ->)%fmap_Some. constructor; [done|apply (IH bs3); [lia|done]]. }
  destruct bs3 as [|b3 bs4]; [done|]. cbn in Hn.
  destruct (is_continuation b3); [|done]. cbn [negb].
  destruct (_ && _)%bool in |- *; [|done].
  cbn zeta. destruct (_ && _)%bool eqn:Hc in |- *; [|done].
  apply andb_true_iff in Hc as [Hlo%N.leb_le Hhi%N.ltb_lt].
  intros (t & Ht & ->)%fmap_Some. constructor; [|apply (IH bs4); [lia|done]].
  unfold is_scalar. rewrite (proj2 (N.ltb_lt _ _) Hhi), andb_true_r.
  apply orb_true_iff. right. apply N.ltb_lt. lia.
Qed.

Lemma unhex_lt (c d : N) : unhex c = Some d → (d < 16)%N.
Proof.
  unfold unhex. repeat case_match; intros [= <-];
    repeat match goal with
    | H : (_ && _)%bool = true |- _ => apply andb_true_iff in H as [?%N.leb_le ?%N.leb_le]
    end; lia.
Qed.

Lemma unescape_scalar (e ch : N) : unescape e = Some ch → is_scalar ch = true.
Proof.
  unfold unescape.
  repeat match goal with
  | |- context [(e =? ?k)%N] =>
      destruct (N.eqb_spec e k) as [->|?]; [intros [= <-]; reflexivity|]
  end.
  done.
Qed.

Lemma pieces_ok : ∀ (n : nat) (body : list N) (ps : list piece),
  (length body ≤ n)%nat → Forall (λ c, is_scalar c = true) body →
  pieces body = Some ps → Forall piece_ok ps.
Proof.
  induction n as [|n IH]; intros body ps Hn Hb.
  { destruct body; [|cbn in Hn; lia]. intros [= <-]. constructor. }
  destruct body as [|c body1]; [intros [= <-]; constructor|]. cbn in Hn.
  apply Forall_cons in Hb as [Hc Hb1]. cbn [pieces].
  destruct (c =? 92)%N.
  2:{ intros (t & Ht & ->)%fmap_Some. constructor; [done|]. apply (IH body1); [lia|done..]. }
  destruct body1 as [|e body2]; [done|]. cbn in Hn.
  apply Forall_cons in Hb1 as [_ Hb2].
  destruct (e =? 117)%N.
  - destruct body2 as [|h1 [|h2 [|h3 [|h4 body3]]]]; try done. cbn in Hn.
    destruct (unhex h1) as [a|] eqn:Ha; [|done].
    destruct (unhex h2) as [b|] eqn:Hb; [|done].
    destruct (unhex h3) as [x|] eqn:Hx; [|done].
    destruct (unhex h4) as [y|] eqn:Hy; [|done].
    apply unhex_lt in Ha, Hb, Hx, Hy.
    intros (t & Ht & ->)%fmap_Some. constructor; [cbn; lia|].
    apply (IH body3); [lia| |done]. by do 4 apply Forall_cons in Hb2 as [_ Hb2].
  - destruct (unescape e) as [ch|] eqn:He; [|done].
    intros (t & Ht & ->)%fmap_Some. constructor; [by apply unescape_scalar in He|].
    apply (IH body2); [lia|done..].
Qed.

Lemma scalar_not_surrogate (c : N) :
  is_scalar c = true → (c < 0x110000)%N ∧ is_high c = false ∧ is_low c = false.
Proof.
  unfold is_scalar, is_high, is_low. intros H.
  apply orb_true_iff in H as [H%N.ltb_lt|[?%N.ltb_lt ?%N.ltb_lt]%andb_true_iff].
  - split; [lia|]. destruct (N.leb_spec 55296 c); [lia|].
    destruct (N.leb_spec 56320 c); [lia|done].
  - split; [lia|]. destruct (N.leb_spec c 56319); [lia|].
    destruct (N.leb_spec c 57343); [lia|]. by rewrite !andb_false_r.
Qed.

Lemma unpaired_cons (a : N) (s : unicode) :
  unpaired (a :: s) = true ↔ is_high a && low_head s = false ∧ unpaired s = true.
Proof. cbn [unpaired]. by rewrite andb_true_iff, negb_true_iff. Qed.

(** What [join] yields: a well-formed string, which begins with a low
    surrogate only when the first piece is the escape of one. *)
Lemma join_ok : ∀ (n : nat) (ps : list piece),
  (length ps ≤ n)%nat → Forall piece_ok ps →
  well_formed (join ps)
  ∧ low_head (join ps) = match ps with Escaped u :: _ => is_low u | _ => false end.
Proof.
  induction n as [|n IH]; intros ps Hn Hps.
  { destruct ps; [|cbn in Hn; lia]. done. }
  destruct ps as [|[c|u] ps1]; [done| |]; cbn in Hn;
    apply Forall_cons in Hps as [Hp Hps1].
  - destruct (IH ps1 ltac:(lia) Hps1) as [[Hs Hu] _].
    apply scalar_not_surrogate in Hp as (Hc & Hh & Hl).
    cbn [join low_head]. split; [|done]. split.
    + by apply is_str_cons.
    + apply unpaired_cons. by rewrite Hh.
  - cbn in Hp. cbn [join].
    assert (∀ v ps2, ps1 = Escaped v :: ps2 → is_high u && is_low v = true →
              well_formed ((65536 + (u - 55296) * 1024 + (v - 56320))%N :: join ps2)
              ∧ is_low (65536 + (u - 55296) * 1024 + (v - 56320))%N = is_low u)
      as Hjoined.
    { intros v ps2 -> Hpair. apply Forall_cons in Hps1 as [_ Hps2]. cbn in Hn.
      destruct (IH ps2 ltac:(lia) Hps2) as [[Hs Hu] _].
      apply andb_true_iff in Hpair as [Hh Hl]. unfold is_high, is_low in *.
      apply andb_true_iff in Hh as [?%N.leb_le ?%N.leb_le].
      apply andb_true_iff in Hl as [?%N.leb_le ?%N.leb_le].
      set (j := (65536 + (u - 55296) * 1024 + (v - 56320))%N).
      assert (65536 ≤ j < 1114112)%N as Hj by lia.
      assert ((56320 <=? u)%N = false) as -> by (apply N.leb_gt; lia).
      assert ((j <=? 57343)%N = false) as Hj' by (apply N.leb_gt; lia).
      split; [|by rewrite Hj', andb_false_r]. split.
      - apply is_str_cons. split; [lia|done].
      - apply unpaired_cons. split; [|done]. unfold is_high.
        assert ((j <=? 56319)%N = false) as -> by (apply N.leb_gt; lia).
        by rewrite andb_false_r. }
    assert (match ps1 with
            | Escaped v :: _ => is_high u && is_low v = false
            | _ => True
            end → well_formed (u :: join ps1)) as Halone.
    { intros Hno. destruct (IH ps1 ltac:(lia) Hps1) as [[Hs Hu] Hhead]. split.
      - apply is_str_cons. split; [lia|done].
      - apply unpaired_cons. split; [|done]. rewrite Hhead.
        destruct ps1 as [|[c|v] ps2]; [by rewrite andb_false_r..|done]. }
    destruct ps1 as [|[c|v] ps2]; [by split; [apply Halone|].. |].
    destruct (is_high u && is_low v) eqn:Hpair.
    + destruct (Hjoined v ps2 eq_refl Hpair) as [? ?]. by split.
    + split; [by apply Halone|done].
Qed.

Lemma decode_string_well_formed (body : list N) (s : unicode) :
  Forall (λ c, is_scalar c = true) body → decode_string body = Some s → well_formed s.
Proof.
  intros Hb (ps & Hps & ->)%fmap_Some.
  apply (pieces_ok _ _ _ (Nat.le_refl _)) in Hps; [|done].
  by apply (join_ok _ _ (Nat.le_refl _)).
Qed.

Lemma start_sound (c : N) ts st :
  start c = Some (ts, st) → Forall token_sound ts ∧ scanning_sound st.
Proof.
  unfold start. repeat (case_match; [intros [= <- <-]; by repeat constructor|]). done.
Qed.

Lemma step_sound (st st' : scanning) (c : N) (ts : list token) :
  step st c = Some (ts, st') → is_scalar c = true → scanning_sound st →
  Forall token_sound ts ∧ scanning_sound st'.
Proof.
  intros Hstep Hc Hst. destruct st as [|acc escaped|ph acc|rest v]; cbn [step] in Hstep.
  - by apply start_sound in Hstep.
  - cbn in Hst. destruct escaped.
    { injection Hstep as <- <-. split; [constructor|by constructor]. }
    destruct (c =? 34)%N.
    { destruct (decode_string (rev acc)) as [s|] eqn:Hd; [|done]. injection Hstep as <- <-.
      split; [|done]. constructor; [|constructor].
      apply decode_string_well_formed in Hd; [done|]. by apply Forall_rev. }
    destruct (c =? 92)%N.
    { injection Hstep as <- <-. split; [constructor|by constructor]. }
    destruct (c <? 32)%N; [done|].
    injection Hstep as <- <-. split; [constructor|by constructor].
  - destruct (number_step ph c).
    { injection Hstep as <- <-. by split; [constructor|]. }
    destruct (complete ph).
    + destruct (start c) as [[ts0 st0]|] eqn:Hs; [|done]. injection Hstep as <- <-.
      apply start_sound in Hs as [? ?]. split; [by constructor|done].
    + destruct ph; try done. destruct (c =? 73)%N; [|done].
      injection Hstep as <- <-. by split; [constructor|].
  - cbn in Hst. destruct rest as [|x rest']; [done|].
    destruct (c =? x)%N; [|done]. destruct rest'; injection Hstep as <- <-.
    + split; [by repeat constructor|done].
    + by split; [constructor|].
Qed.

Lemma scan_sound (text : unicode) : ∀ st out ts,
  scan st out text = Some ts → Forall (λ c, is_scalar c = true) text →
  scanning_sound st → Forall token_sound out → Forall token_sound ts.
Proof.
  induction text as [|c text IH]; intros st out ts Hscan Htext Hst Hout.
  - cbn [scan] in Hscan. destruct st as [| |ph acc|]; try done.
    + injection Hscan as <-. by apply Forall_rev.
    + destruct (complete ph); [|done]. injection Hscan as <-.
      apply Forall_app_2; [by apply Forall_rev|by repeat constructor].
  - apply Forall_cons in Htext as [Hc Htext]. cbn [scan] in Hscan.
    destruct (step st c) as [[ts0 st0]|] eqn:Hstep; [|done].
    apply step_sound in Hstep as [Hts0 Hst0]; [|done..].
    apply (IH _ _ _ Hscan); [done..|].
    apply Forall_app_2; [by apply Forall_rev|done].
Qed.

Lemma sound_item (v : json) : sound v → item_sound v.
Proof. by intros Hv s ->. Qed.

Lemma complete_value_sound (v : json) (stack : list frame) s :
  complete_value v stack = Some s → sound v → Forall frame_sound stack → state_sound s.
Proof.
  intros Hc Hv Hstack.
  destruct stack as [|[items|members [k|]] stack]; try done; injection Hc as <-.
  - by split.
  - apply Forall_cons in Hstack as [Hf Hstack]. split; [|done].
    constructor; [|done]. constructor; [by apply sound_item|done].
  - apply Forall_cons in Hstack as [[Hm Hk] Hstack]. split; [|done].
    constructor; [|done]. split; [|done]. constructor; [by apply Hk|done].
Qed.

Lemma parse_step_sound s t s' :
  parse_step s t = Some s' → state_sound s → token_sound t → state_sound s'.
Proof.
  destruct s as [stack e]. intros Hstep [Hstack _] Ht. cbn [fst] in Hstack.
  destruct e as [b|b| | |v], t as [| | | | | |v']; cbn [parse_step] in Hstep;
    try discriminate Hstep;
    repeat match type of Hstep with
    | context [match ?x with _ => _ end] => destruct x; try discriminate Hstep
    end;
    repeat match goal with
    | H : Forall frame_sound (_ :: _) |- _ => apply Forall_cons in H as [? ?]
    end;
    cbn [frame_sound token_sound sound] in *;
    try (injection Hstep as <-);
    try (apply (complete_value_sound _ _ _ Hstep));
    unfold state_sound; cbn [fst snd sound];
    repeat first [ done | by apply Forall_rev | by intros ? [= <-]
                 | match goal with H : _ ∧ _ |- _ => destruct H end
                 | split | apply Forall_cons_2 | apply Forall_nil_2 ].
Qed.

Lemma parse_from_sound (ts : list token) : ∀ s v,
  parse_from s ts = Some v → state_sound s → Forall token_sound ts → sound v.
Proof.
  induction ts as [|t ts IH]; intros s v Hp Hs Hts.
  - destruct s as [[|] []]; try done. injection Hp as <-. by destruct Hs.
  - apply Forall_cons in Hts as [Ht Hts]. cbn [parse_from] in Hp.
    destruct (parse_step s t) as [s'|] eqn:Hstep; [|done].
    apply (IH _ _ Hp); [|done]. by apply (parse_step_sound s t).
Qed.

Lemma json_load_sound (data : string) (v : json) : json_load data = Ok v → sound v.
Proof.
  unfold json_load, json_loads.
  destruct (utf8_decode (codes data)) as [text|] eqn:Hd; [|done].
  apply (utf8_decode_scalar _ _ _ (Nat.le_refl _)) in Hd.
  destruct (scan Between [] text) as [ts|] eqn:Hs; [|done]. cbn [mbind option_bind].
  destruct (parse ts) as [v'|] eqn:Hp; [|done]. intros [= <-].
  apply (parse_from_sound _ _ _ Hp); [by split|].
  by apply (scan_sound _ _ _ _ Hs).
Qed.

Lemma set_of_sound (v : json) (s : gset unicode) (m : unicode) :
  sound v → set_of v = Ok s → m ∈ s → well_formed m.
Proof.
  intros Hv Hs Hm. destruct v as [| | |str|items|members]; try done; cbn in Hs, Hv.
  - injection Hs as <-. apply elem_of_list_to_set, list_elem_of_fmap in Hm as (c & -> & Hc).
    destruct Hv as [Hstr _]. unfold is_str in Hstr.
    rewrite forallb_forall in Hstr. apply list_elem_of_In, Hstr in Hc.
    split; [cbn; by rewrite Hc|]. cbn. by rewrite andb_false_r.
  - destruct (forallb hashable items); [|done]. injection Hs as <-.
    apply elem_of_list_to_set, list_elem_of_omap in Hm as (x & Hx & Has).
    destruct x; try done. injection Has as ->.
    rewrite Forall_forall in Hv. by apply (Hv _ Hx).
  - injection Hs as <-.
    apply elem_of_list_to_set, list_elem_of_fmap in Hm as ([k x] & -> & Hk).
    rewrite Forall_forall in Hv. by apply (Hv _ Hk).
Qed.

(** Every string loaded from the Ledger file is well formed. *)
Lemma load_posted_items_sound (fs : gmap string string) (m : unicode) :
  m ∈ load_posted_items fs → well_formed m.
Proof.
  unfold load_posted_items. destruct (fs !! posted_file) as [data|]; [|set_solver +].
  destruct (json_load data) as [v|e] eqn:Hl; [|set_solver +].
  destruct (set_of v) as [s|e] eqn:Hs; [|set_solver +].
  apply json_load_sound in Hl. apply (set_of_sound v s m Hl Hs).
Qed.

(** A string of characters up to U+00FF is well formed. *)
Lemma codes_well_formed (s : string) : well_formed (codes s).
Proof.
  assert (∀ c, ((N_of_ascii c <? 1114112) = true ∧ is_high (N_of_ascii c) = false)%N) as Hc.
  { intros c. pose proof (N_ascii_bounded c). split; [apply N.ltb_lt; lia|].
    unfold is_high. destruct (N.leb_spec 55296 (N_of_ascii c)); [lia|done]. }
  induction s as [|c s [IH1 IH2]]; [done|]. rewrite codes_cons.
  destruct (Hc c) as [H1 H2]. split.
  - unfold is_str. cbn [forallb]. by rewrite H1.
  - apply unpaired_cons. by rewrite H2.
Qed.

(** ** The Ledger file *)

Lemma set_of_strings (l : list unicode) :
  set_of (JArray (JString <$> l)) = Ok (list_to_set l).
Proof.
  cbn [set_of].
  assert (forallb hashable (JString <$> l) = true) as ->
    by (by induction l as [|x l IH]).
  do 2 f_equal. induction l as [|x l IH]; [done|]. cbn. by rewrite IH.
Qed.

(** A completed save loads back as the set that was saved. *)
Lemma load_save (s : gset unicode) (fs : gmap string string) :
  (∀ m, m ∈ s → well_formed m) →
  load_posted_items (save_posted_items Written s fs) = s.
Proof.
  intros Hs. unfold load_posted_items, save_posted_items.
  rewrite lookup_insert_eq, json_load_dump.
  - rewrite set_of_strings. apply list_to_set_elements_L.
  - apply Forall_forall. intros m Hm. by apply Hs, elem_of_elements.
Qed.

(** An object loads as its keys and a string as its characters; the
    strings among the items of an array are loaded; an array that holds
    an array, and a number, load as the empty set. *)
Lemma load_posted_items_other_values :
  load_posted_items {[ posted_file := file_object ]} = {[ codes "a"; codes "b" ]}
  ∧ load_posted_items {[ posted_file := file_string ]} = {[ codes "a"; codes "b" ]}
  ∧ codes "x" ∈ load_posted_items {[ posted_file := file_mixed ]}
  ∧ load_posted_items {[ posted_file := file_nested ]} = ∅
  ∧ load_posted_items {[ posted_file := file_number ]} = ∅.
Proof. repeat split; apply (bool_decide_unpack _); vm_compute; exact I. Qed.

(** ** The classifier *)

Lemma truthy_Some (o : option string) :
  truthy o = true ↔ ∃ s, o = Some s ∧ s ≠ EmptyString.
Proof.
  split.
  - destruct o as [[|c s]|]; simpl; try discriminate. intros _. by eexists.
  - intros (s & -> & Hs). by destruct s.
Qed.

Lemma extract_item_details_Some d now c cat iu it :
  (extract_item_details d now c cat iu).1 = Some it →
  ∃ u pg, target_of c iu = Some u ∧ storefront d (visits d) u = Ok pg
          ∧ inspect_item pg now u cat = Some it.
Proof.
  unfold extract_item_details, driver_get.
  destruct (target_of c iu) as [u|]; [|discriminate].
  destruct (storefront d (visits d) u) as [pg|e] eqn:Hpg; [|discriminate].
  simpl. eauto.
Qed.

Lemma extract_item_details_on d now c cat iu u pg :
  target_of c iu = Some u → storefront d (visits d) u = Ok pg →
  (extract_item_details d now c cat iu).1 = inspect_item pg now u cat.
Proof.
  intros Ht Hpg. unfold extract_item_details, driver_get. by rewrite Ht, Hpg.
Qed.

Section filter_facts.
Context {A : Type} (P : A → bool).

Lemma filter_nil_none (l : list A) (x : A) :
  filter (λ y, P y) l = [] → x ∈ l → P x = false.
Proof.
  intros Hf Hx. destruct (P x) eqn:HP; [|done].
  assert (x ∈ filter (λ y, P y) l) as Hin
    by (apply list_elem_of_filter; split; [by rewrite HP|done]).
  rewrite Hf in Hin. by apply elem_of_nil in Hin.
Qed.

Lemma filter_cons_some (l hits : list A) (x : A) :
  filter (λ y, P y) l = x :: hits → x ∈ l ∧ P x = true.
Proof.
  intros Hf. assert (x ∈ filter (λ y, P y) l) as Hin by (rewrite Hf; left).
  apply list_elem_of_filter in Hin as [HP Hin]. split; [done|].
  by apply Is_true_true.
Qed.
End filter_facts.

Lemma loyalty_scan_true (l : list WebElement) :
  loyalty_scan l = true ↔
  ∃ m, m ∈ l ∧ ∃ a, (a ∈ ancestors m ∨ a = m)
                  ∧ str_in "eso-plus-loyalty" (xp_attr a "class") = true.
Proof.
  induction l as [|m l IH].
  - split; [discriminate|]. intros (m & Hm & _). by apply elem_of_nil in Hm.
  - cbn [loyalty_scan element_find_elements xp_loyalty].
    destruct (filter _ (ancestors m ++ [m])) as [|a hits] eqn:Hf.
    + rewrite IH. split.
      * intros (m' & Hm' & H). exists m'. split; [by right|done].
      * intros (m' & Hm' & a & Ha & Hc).
        apply elem_of_cons in Hm' as [->|Hm']; [|by eauto].
        apply (filter_nil_none _ _ a) in Hf.
        { cbn [holds] in Hf. congruence. }
        apply elem_of_app. destruct Ha as [Ha| ->]; [by left|right; by left].
    + split; [intros _|done].
      apply filter_cons_some in Hf as [Hin Hh]. cbn [holds] in Hh.
      exists m. split; [left|]. exists a. split; [|done].
      apply elem_of_app in Hin as [?|Hin]; [by left|].
      apply list_elem_of_singleton in Hin. by right.
Qed.

Lemma name_ok_true (t : string) :
  name_ok t = true ↔
  t ≠ EmptyString ∧ 2 < len t
  ∧ str_in "crown store" (lower t) = false
  ∧ str_in "purchase crowns" (lower t) = false.
Proof.
  unfold name_ok. rewrite !andb_true_iff, !negb_true_iff, truthy_Some, Z.gtb_lt.
  split.
  - intros [[[(s & [= <-] & Hs) ?] ?] ?]. done.
  - intros (? & ? & ? & ?). repeat split; eauto.
Qed.

Lemma first_name_Some (els : list WebElement) (n : string) :
  first_name els = Some n → ∃ e, e ∈ els ∧ strip (text e) = n ∧ name_ok n = true.
Proof.
  induction els as [|e els IH]; [discriminate|]. cbn [first_name].
  destruct (name_ok (strip (text e))) eqn:Hok.
  - intros [= <-]. exists e. split; [left|done].
  - intros (e' & ? & ?)%IH. exists e'. split; [by right|done].
Qed.

Lemma first_name_None (els : list WebElement) :
  (∀ e, e ∈ els → name_ok (strip (text e)) = false) → first_name els = None.
Proof.
  induction els as [|e els IH]; [done|]. intros H. cbn [first_name].
  rewrite (H e) by left. apply IH. intros e' He'. apply H. by right.
Qed.

Lemma resolve_name_Some (pg : page) (sels : list xpath) (n : string) :
  resolve_name pg sels = Ok (Some n) →
  ∃ sel els e, sel ∈ sels ∧ find_elements pg sel = Ok els ∧ e ∈ els
               ∧ strip (text e) = n ∧ name_ok n = true.
Proof.
  induction sels as [|sel sels IH]; [discriminate|]. cbn [resolve_name].
  destruct (find_elements pg sel) as [els|err] eqn:Hf; [|discriminate].
  destruct (first_name els) as [n'|] eqn:Hn.
  - intros [= <-]. apply first_name_Some in Hn as (e & ? & ? & ?).
    exists sel, els, e. split; [left|done].
  - intros (sel' & els' & e & ? & ?)%IH. exists sel', els', e. split; [by right|done].
Qed.

Lemma resolve_name_none (pg : page) (sels : list xpath) :
  (∀ sel els e, sel ∈ sels → find_elements pg sel = Ok els → e ∈ els →
                name_ok (strip (text e)) = false) →
  ∀ n, resolve_name pg sels ≠ Ok (Some n).
Proof.
  intros H n (sel & els & e & Hs & Hf & He & <- & Hok)%resolve_name_Some.
  rewrite (H sel els e) in Hok; done.
Qed.

Lemma find_free (pg : page) : find_elements pg xp_free = Ok (free_markers pg).
Proof. reflexivity. Qed.

Lemma find_free_with_deal (pg : page) :
  find_elements pg xp_free_with_deal = Ok (deal_texts pg).
Proof. reflexivity. Qed.

Lemma inspect_item_Some (pg : page) (now u cat : string) (it : item_details) :
  inspect_item pg now u cat = Some it →
  free_markers pg ≠ []
  ∧ resolve_name pg name_selectors = Ok (Some (name it))
  ∧ url it = u ∧ category_url it = cat ∧ found_date it = now
  ∧ image_url it = main_image pg
  ∧ is_eso_plus_free it
    = match deal_texts pg with [] => loyalty_scan (free_markers pg) | _ :: _ => true end.
Proof.
  unfold inspect_item. rewrite find_free, find_free_with_deal.
  destruct (free_markers pg) as [|m ms] eqn:Hm; [discriminate|].
  destruct (resolve_name pg name_selectors) as [[n|]|e]; try discriminate.
  destruct n as [|c n]; [discriminate|]. cbn [truthy negb orb default].
  intros [= <-]. done.
Qed.

Lemma inspect_item_None_markers (pg : page) (now u cat : string) :
  free_markers pg = [] → inspect_item pg now u cat = None.
Proof. intros H. unfold inspect_item. by rewrite find_free, H. Qed.

Lemma inspect_item_None_name (pg : page) (now u cat : string) :
  (∀ n, resolve_name pg name_selectors ≠ Ok (Some n)) →
  inspect_item pg now u cat = None.
Proof.
  intros H. unfold inspect_item. rewrite find_free, find_free_with_deal.
  destruct (free_markers pg); [done|].
  destruct (resolve_name pg name_selectors) as [[n|]|e]; try done.
  by destruct (H n).
Qed.

(** ** The image step *)


Lemma record_image_recorded d img :
  record_image d img
  = match recorded img with Some (s, a) => dict_set s a d | None => d end.
Proof.
  unfold record_image, recorded.
  destruct (get_attribute img "src") as [s|]; [|done].
  destruct s as [|c s]; [done|]. cbn [truthy default String.eqb negb].
  destruct (_ && _ && _ && _); [|done].
  destruct (element_size img) as [[w h]|e]; [|done].
  rewrite !Z.gtb_ltb. by destruct (_ && _).
Qed.

Lemma dict_get_set u k v d :
  dict_get u (dict_set k v d) = if String.eqb u k then Some v else dict_get u d.
Proof.
  induction d as [|[k' v'] d IH]; cbn [dict_set dict_get].
  - done.
  - destruct (String.eqb k k') eqn:Hk; cbn [dict_get].
    + apply String.eqb_eq in Hk as <-. by destruct (String.eqb u k).
    + rewrite IH. destruct (String.eqb u k') eqn:Hu; [|done].
      apply String.eqb_eq in Hu as ->.
      by rewrite (proj2 (String.eqb_neq _ _)) by (apply String.eqb_neq in Hk; congruence).
Qed.

Lemma dict_set_keys k v d :
  map fst (dict_set k v d)
  = if bool_decide (k ∈ map fst d) then map fst d else map fst d ++ [k].
Proof.
  induction d as [|[k' v'] d IH]; cbn [dict_set map fst].
  - done.
  - destruct (String.eqb k k') eqn:Hk.
    + apply String.eqb_eq in Hk as <-. rewrite bool_decide_true by left. done.
    + apply String.eqb_neq in Hk. cbn [map fst]. rewrite IH.
      destruct (bool_decide (k ∈ map fst d)) eqn:Hd.
      * apply bool_decide_eq_true in Hd. rewrite bool_decide_true by (by right). done.
      * apply bool_decide_eq_false in Hd.
        rewrite bool_decide_false; [done|]. intros [?|?]%elem_of_cons; done.
Qed.

Lemma dict_set_NoDup k v d : NoDup (map fst d) → NoDup (map fst (dict_set k v d)).
Proof.
  intros Hd. rewrite dict_set_keys. case_bool_decide; [done|].
  apply NoDup_app. split; [done|]. split; [|apply NoDup_singleton].
  intros x Hx ->%list_elem_of_singleton. done.
Qed.

Lemma dict_get_elem k v d :
  NoDup (map fst d) → (k, v) ∈ d ↔ dict_get k d = Some v.
Proof.
  induction d as [|[k' v'] d IH]; cbn [dict_get map fst].
  - intros _. split; [by intros ?%elem_of_nil|done].
  - intros [Hk' Hd]%NoDup_cons. rewrite elem_of_cons, IH by done.
    destruct (String.eqb k k') eqn:Hk.
    + apply String.eqb_eq in Hk as ->. split.
      * intros [[= ->]|Hg]; [done|]. exfalso. apply Hk'.
        apply IH in Hg; [|done]. apply list_elem_of_fmap. by exists (k', v).
      * intros [= ->]. by left.
    + apply String.eqb_neq in Hk. split; [intros [[= ? ?]|?]; done|by right].
Qed.

Lemma max_key_spec d : ∀ best,
  ∃ v, (max_key best d, v) ∈ best :: d ∧ ∀ kv, kv ∈ best :: d → kv.2 ≤ v.
Proof.
  induction d as [|kv d IH]; intros best; cbn [max_key].
  - exists best.2. split; [destruct best; left|].
    intros kv ->%list_elem_of_singleton. done.
  - destruct (kv.2 >? best.2) eqn:Hc.
    + apply Z.gtb_lt in Hc. destruct (IH kv) as (v & Hin & Hmax).
      exists v. split; [by right|].
      intros kv' [->|Hkv']%elem_of_cons; [|by apply Hmax].
      specialize (Hmax kv (list_elem_of_here _ _)). lia.
    + rewrite Z.gtb_ltb, Z.ltb_ge in Hc. destruct (IH best) as (v & Hin & Hmax).
      exists v. split.
      * apply elem_of_cons in Hin as [->|Hin]; [left|right; by right].
      * intros kv' [->|[->|Hkv']%elem_of_cons]%elem_of_cons.
        -- apply Hmax. left.
        -- specialize (Hmax best (list_elem_of_here _ _)). lia.
        -- apply Hmax. by right.
Qed.

Lemma dict_set_nonempty k v d : dict_set k v d ≠ [].
Proof. destruct d as [|[k' v'] d]; cbn [dict_set]; [done|]. by destruct (String.eqb k k'). Qed.

Lemma fold_record_nil imgs : ∀ d,
  fold_left record_image imgs d = [] ↔ d = [] ∧ ∀ img, img ∈ imgs → recorded img = None.
Proof.
  induction imgs as [|img imgs IH]; intros d; cbn [fold_left].
  - split; [intros ->; split; [done|by intros ? ?%elem_of_nil]|by intros [-> _]].
  - rewrite IH, record_image_recorded. split.
    + intros [Hd H]. destruct (recorded img) as [[s a]|] eqn:Hr.
      * by apply dict_set_nonempty in Hd.
      * split; [done|]. intros img' [->|?]%elem_of_cons; eauto.
    + intros [-> H]. rewrite (H img) by left. split; [done|].
      intros img' ?. apply H. by right.
Qed.

Lemma fold_record_NoDup imgs : ∀ d,
  NoDup (map fst d) → NoDup (map fst (fold_left record_image imgs d)).
Proof.
  induction imgs as [|img imgs IH]; intros d Hd; cbn [fold_left]; [done|].
  apply IH. rewrite record_image_recorded.
  destruct (recorded img) as [[s a]|]; [by apply dict_set_NoDup|done].
Qed.

Lemma last_recorded_snoc_hit imgs img u a :
  recorded img = Some (u, a) → ∀ a', last_recorded (imgs ++ [img]) u a' ↔ a' = a.
Proof.
  intros Hr a'. split.
  - intros (before & img' & after & Heq & Hr' & Hafter).
    destruct after as [|x after _] using rev_ind.
    + apply app_inj_tail in Heq as [_ <-]. congruence.
    + rewrite app_comm_cons, app_assoc in Heq. apply app_inj_tail in Heq as [_ <-].
      destruct (Hafter img a). { apply elem_of_app. right. left. } done.
  - intros ->. exists imgs, img, []. split; [done|]. split; [done|].
    by intros ? ? ?%elem_of_nil.
Qed.

Lemma last_recorded_snoc_miss imgs img u :
  (∀ a, recorded img ≠ Some (u, a)) →
  ∀ a', last_recorded (imgs ++ [img]) u a' ↔ last_recorded imgs u a'.
Proof.
  intros Hr a'. split.
  - intros (before & img' & after & Heq & Hr' & Hafter).
    destruct after as [|x after _] using rev_ind.
    + apply app_inj_tail in Heq as [_ <-]. by destruct (Hr a').
    + rewrite app_comm_cons, app_assoc in Heq. apply app_inj_tail in Heq as [-> <-].
      exists before, img', after. split; [done|]. split; [done|].
      intros ? ? ?. apply Hafter. apply elem_of_app. by left.
  - intros (before & img' & after & -> & Hr' & Hafter).
    exists before, img', (after ++ [img]).
    split; [exact (eq_sym (app_assoc before (img' :: after) [img]))|].
    split; [done|]. intros x a [?| ->%list_elem_of_singleton]%elem_of_app; eauto.
Qed.

Lemma fold_record_get imgs u a : ∀ d,
  dict_get u (fold_left record_image imgs d) = Some a ↔
  last_recorded imgs u a
  ∨ (dict_get u d = Some a ∧ ∀ img a', img ∈ imgs → recorded img ≠ Some (u, a')).
Proof.
  induction imgs as [|img imgs IH] using rev_ind; intros d.
  - cbn [fold_left]. split.
    + intros H. right. split; [done|]. by intros ? ? ?%elem_of_nil.
    + intros [(before & x & after & Heq & _)|[H _]]; [|done].
      by destruct before.
  - rewrite fold_left_app. cbn [fold_left]. rewrite record_image_recorded.
    destruct (recorded img) as [[s v]|] eqn:Hr.
    + rewrite dict_get_set. destruct (String.eqb u s) eqn:Hu.
      * apply String.eqb_eq in Hu as ->. rewrite (last_recorded_snoc_hit _ _ _ _ Hr).
        split; [intros [= ->]; by left|].
        intros [->|[_ H]]; [done|]. destruct (H img v); [|done].
        apply elem_of_app. right. left.
      * apply String.eqb_neq in Hu.
        rewrite last_recorded_snoc_miss by (rewrite Hr; congruence).
        rewrite IH. split; (intros [?|[? H]]; [by left|right; split; [done|]]).
        -- intros x a' [?| ->%list_elem_of_singleton]%elem_of_app; [eauto|].
           rewrite Hr. congruence.
        -- intros x a' ?. apply H. apply elem_of_app. by left.
    + rewrite last_recorded_snoc_miss by (rewrite Hr; congruence).
      rewrite IH. split; (intros [?|[? H]]; [by left|right; split; [done|]]).
      * intros x a' [?| ->%list_elem_of_singleton]%elem_of_app; [eauto|].
        rewrite Hr. congruence.
      * intros x a' ?. apply H. apply elem_of_app. by left.
Qed.

Lemma find_images (pg : page) :
  find_elements pg xp_images
  = Ok (filter (λ e, has_tag "img" e && holds (ContainsAttr "src" "/ape/uploads/") e)
               (all_elements pg)).
Proof. reflexivity. Qed.

Lemma main_image_spec (pg : page) (imgs : list WebElement) :
  find_elements pg xp_images = Ok imgs →
  (main_image pg = None ↔ ∀ img, img ∈ imgs → recorded img = None)
  ∧ ∀ u, main_image pg = Some u →
      ∃ a, last_recorded imgs u a ∧ ∀ u' a', last_recorded imgs u' a' → a' ≤ a.
Proof.
  intros Hf. unfold main_image. rewrite Hf.
  pose proof (fold_record_nil imgs []) as Hnil.
  pose proof (fold_record_NoDup imgs [] (NoDup_nil_2)) as Hnd.
  pose proof (λ u a, fold_record_get imgs u a []) as Hget.
  destruct (fold_left record_image imgs []) as [|kv d].
  - split.
    + split; [intros _; by apply Hnil|done].
    + discriminate.
  - split.
    + split; [discriminate|]. intros H. discriminate (proj2 Hnil (conj eq_refl H)).
    + intros u [= <-]. destruct (max_key_spec d kv) as (a & Hin & Hmax).
      exists a. split.
      * apply dict_get_elem in Hin; [|done]. apply Hget in Hin as [?|[? _]]; done.
      * intros u' a' Hl. assert (dict_get u' (kv :: d) = Some a') as Hg
          by (apply Hget; by left).
        apply dict_get_elem in Hg; [|done]. by apply (Hmax (u', a')).
Qed.

(** ** The first item link *)

Lemma first_where_cons {A : Type} (P : A → bool) (x y : A) (l : list A) :
  first_where P (y :: l) x ↔
  (P y = true ∧ x = y) ∨ (P y = false ∧ first_where P l x).
Proof.
  split.
  - intros (before & after & Heq & Hx & Hb). destruct before as [|b before].
    + injection Heq as -> ->. by left.
    + injection Heq as -> ->. right. split; [apply Hb; left|].
      exists before, after. split; [done|]. split; [done|].
      intros b' ?. apply Hb. by right.
  - intros [[Hy ->]|[Hy (before & after & -> & Hx & Hb)]].
    + exists [], l. split; [done|]. split; [done|]. by intros ? ?%elem_of_nil.
    + exists (y :: before), after. split; [done|]. split; [done|].
      intros b [->|?]%elem_of_cons; auto.
Qed.

Lemma first_where_nil {A : Type} (P : A → bool) (x : A) : ¬ first_where P [] x.
Proof. intros (before & after & Heq & _). by destruct before. Qed.

Lemma first_where_filter {A : Type} (P : A → bool) (l : list A) (x : A) :
  head (filter (λ y, P y) l) = Some x ↔ first_where P l x.
Proof.
  induction l as [|y l IH].
  - split; [done|by intros ?%first_where_nil].
  - rewrite first_where_cons. destruct (P y) eqn:Hy.
    + rewrite filter_cons_True by (by rewrite Hy). cbn. split.
      * intros [= ->]. by left.
      * intros [[_ ->]|[? _]]; done.
    + rewrite filter_cons_False by (rewrite Hy; intros []). rewrite IH. split.
      * intros ?. by right.
      * intros [[? _]|[_ ?]]; done.
Qed.

Lemma item_link_href (link : WebElement) :
  item_link link = true ↔
  ∃ h, get_attribute link "href" = Some h ∧ str_in "/crownstore/item/" h = true.
Proof.
  unfold item_link.
  destruct (get_attribute link "href") as [h|]; cbn [default from_option id].
  - split; [intros ?; by exists h|by intros (? & [= ->] & ?)].
  - split; [discriminate|by intros (? & ? & _)].
Qed.

Lemma first_item_href_test (link : WebElement) :
  truthy (get_attribute link "href")
  && str_in "/crownstore/item/" (default EmptyString (get_attribute link "href"))
  = item_link link.
Proof.
  unfold item_link. destruct (get_attribute link "href") as [[|c h]|]; done.
Qed.

Lemma first_item_href_Some (links : list WebElement) (h : string) :
  first_item_href links = Some h ↔
  ∃ link, first_where item_link links link ∧ get_attribute link "href" = Some h.
Proof.
  induction links as [|y links IH]; cbn [first_item_href].
  - split; [done|]. by intros (? & ?%first_where_nil & _).
  - rewrite first_item_href_test. setoid_rewrite first_where_cons.
    destruct (item_link y) eqn:Hy.
    + split.
      * intros Hh. exists y. split; [by left|done].
      * intros (link & [[_ ->]|[? _]] & ?); done.
    + rewrite IH. split.
      * intros (link & ? & ?). exists link. split; [by right|done].
      * intros (link & [[? _]|[_ ?]] & ?); [done|]. by exists link.
Qed.

Lemma first_item_href_None (links : list WebElement) :
  first_item_href links = None ↔ ∀ link, link ∈ links → item_link link = false.
Proof.
  induction links as [|y links IH]; cbn [first_item_href].
  - split; [by intros _ ? ?%elem_of_nil|done].
  - rewrite first_item_href_test. destruct (item_link y) eqn:Hy.
    + split.
      * intros Hn. apply item_link_href in Hy as (h & Hh & _). congruence.
      * intros H. specialize (H y (list_elem_of_here _ _)). congruence.
    + rewrite IH. split.
      * intros H link [->|?]%elem_of_cons; auto.
      * intros H link ?. apply H. by right.
Qed.

(** ** Collecting item addresses from a listing page *)

Lemma first_where_ext {A : Type} (P Q : A → bool) (l : list A) (x : A) :
  (∀ y, P y = Q y) → first_where P l x → first_where Q l x.
Proof.
  intros H (before & after & -> & Hx & Hb). exists before, after.
  split; [done|]. split; [by rewrite <-H|]. intros b ?. rewrite <-H. auto.
Qed.

Lemma holds_container (c : WebElement) :
  holds (XOr (XOr (ContainsAttr "class" "item") (ContainsAttr "class" "product"))
             (ContainsAttr "class" "card")) c = container_class c.
Proof. reflexivity. Qed.

Lemma find_container (m : WebElement) :
  element_find_element m xp_container
  = match head (filter (λ d, container_class d) (ancestors m)) with
    | Some c => Ok c
    | None => Raise NoSuchElementException
    end.
Proof.
  unfold element_find_element, element_find_elements, xp_container.
  by destruct (filter _ (ancestors m)).
Qed.

Lemma find_links (c : WebElement) :
  element_find_elements c xp_links = Ok (links_below c).
Proof. reflexivity. Qed.

Lemma collect_item_url_member (acc : gset string) (m : WebElement) (u : string) :
  u ∈ collect_item_url acc m ↔ u ∈ acc ∨ leads_to m u.
Proof.
  unfold collect_item_url, leads_to. rewrite find_container.
  destruct (head (filter _ (ancestors m))) as [c|] eqn:Hc.
  - apply first_where_filter in Hc. rewrite find_links.
    destruct (first_item_href (links_below c)) as [h|] eqn:Hh.
    + apply first_item_href_Some in Hh as (link & Hl & Hh).
      rewrite elem_of_union, elem_of_singleton. split.
      * intros [->|?]; [right; by exists c, link|by left].
      * intros [?|(c' & link' & Hc' & Hl' & Hh')]; [by right|]. left.
        apply first_where_filter in Hc, Hc'. rewrite Hc in Hc'. injection Hc' as <-.
        apply first_where_filter in Hl, Hl'. rewrite Hl in Hl'. injection Hl' as <-.
        congruence.
    + split; [by left|]. intros [?|(c' & link' & Hc' & Hl' & Hh')]; [done|].
      apply first_where_filter in Hc, Hc'. rewrite Hc in Hc'. injection Hc' as <-.
      destruct Hl' as (before & after & Heq & Hl' & _).
      rewrite first_item_href_None in Hh. rewrite Hh in Hl'; [done|].
      rewrite Heq. apply elem_of_app. right. left.
  - split; [by left|]. intros [?|(c' & link' & Hc' & _)]; [done|].
    apply first_where_filter in Hc'. congruence.
Qed.

Lemma fold_collect (ms : list WebElement) : ∀ (acc : gset string) (u : string),
  u ∈ fold_left collect_item_url ms acc ↔ u ∈ acc ∨ ∃ m, m ∈ ms ∧ leads_to m u.
Proof.
  induction ms as [|m ms IH]; intros acc u; cbn [fold_left].
  - split; [by left|]. intros [?|(? & ?%elem_of_nil & _)]; done.
  - rewrite IH, collect_item_url_member. split.
    + intros [[?|?]|(m' & ? & ?)];
        [by left|right; exists m; split; [left|done]
        |right; exists m'; split; [by right|done]].
    + intros [?|(m' & [->|?]%elem_of_cons & ?)];
        [left; by left|left; by right|right; by exists m'].
Qed.

Lemma free_markers_member (pg : page) (m : WebElement) :
  m ∈ free_markers pg ↔ m ∈ all_elements pg ∧ str_in "FREE!" (xp_text m) = true.
Proof.
  unfold free_markers. rewrite list_elem_of_filter. cbn [holds].
  rewrite Is_true_true. tauto.
Qed.

Lemma collected_member (pg : page) (u : string) :
  u ∈ collected pg ↔ ∃ m, m ∈ free_markers pg ∧ leads_to m u.
Proof.
  unfold collected. rewrite fold_collect. split; [|by right].
  by intros [?%not_elem_of_empty|?].
Qed.

Lemma leads_to_item (m : WebElement) (u : string) :
  leads_to m u → str_in "/crownstore/item/" u = true.
Proof.
  intros (c & link & _ & (_ & _ & _ & Hl & _) & Hh).
  apply item_link_href in Hl as (h & Hh' & ?). congruence.
Qed.

Lemma str_in_nonempty (sub s : string) :
  str_in sub s = true → sub ≠ EmptyString → s ≠ EmptyString.
Proof. destruct s; [|done]. destruct sub; cbn; [done|discriminate]. Qed.

(** ** The sweep *)


Lemma fold_left_preserves {S X : Type} (I : S → Prop) (f : S → X → S) (l : list X) :
  (∀ st x, I st → I (f st x)) → ∀ st, I st → I (fold_left f l st).
Proof. intros Hf. induction l as [|x l IH]; intros st Hst; cbn; auto. Qed.

Lemma process_item_inv w posted page_url st item_url :
  sweep_inv posted st → sweep_inv posted (process_item w posted page_url st item_url).
Proof.
  intros [Hfree Hsent Hnew]. unfold process_item.
  case_bool_decide; [done|].
  destruct (extract_item_details _ _ _ _ _) as [[it|] d].
  - case_bool_decide as Hid.
    + split; cbn [free_items classified dispatched new_posted_items truthy webhook_url].
      * by rewrite filter_app, Hfree, filter_cons_True, filter_nil.
      * by rewrite fmap_app, Hsent.
      * rewrite Hnew, fmap_app, list_to_set_app_L. cbn. set_solver +.
    + split; cbn [free_items classified dispatched new_posted_items]; [|done..].
      rewrite filter_app, Hfree, filter_cons_False by (intros Hn; by apply Hn).
      by rewrite filter_nil, app_nil_r.
  - by split.
Qed.

Lemma sweep_page_inv w posted st page_url :
  sweep_inv posted st → sweep_inv posted (sweep_page w posted st page_url).
Proof.
  intros Hst. unfold sweep_page, driver_get.
  assert (sweep_inv posted
            {| drv := {| storefront := storefront (drv st); visits := S (visits (drv st));
                        history := history (drv st) ++ [page_url] |};
               free_items := free_items st; processed_urls := processed_urls st;
               new_posted_items := new_posted_items st; dispatched := dispatched st;
               classified := classified st |}) as Hst' by (by destruct Hst).
  destruct (storefront _ _ _) as [pg|e]; [|done].
  destruct (find_elements pg xp_free) as [els|e]; [|done].
  apply fold_left_preserves; [|done]. intros ? ?. apply process_item_inv.
Qed.

Lemma scrape_inv w :
  sweep_inv (posted_items (scrape_free_items w)) (final (scrape_free_items w)).
Proof.
  unfold scrape_free_items.
  destruct (get_all_crownstore_urls _) as [all_urls d]. cbn [posted_items final].
  apply fold_left_preserves; [intros ? ?; apply sweep_page_inv|].
  split; cbn; [done..|set_solver +].
Qed.

Lemma fold_left_related {S X : Type} (R : S → S → Prop) (f g : S → X → S) (l : list X) :
  (∀ st st' x, R st st' → R (f st x) (g st' x)) →
  ∀ st st', R st st' → R (fold_left f l st) (fold_left g l st').
Proof. intros Hf. induction l as [|x l IH]; intros st st' H; cbn; auto. Qed.

Lemma process_item_replies w post posted page_url st st' item_url :
  same_but_replies st st' →
  same_but_replies (process_item w posted page_url st item_url)
                   (process_item (with_post w post) posted page_url st' item_url).
Proof.
  intros (Hd & Hf & Hp & Hn & Hs & Hc). unfold process_item.
  rewrite <-Hp, <-Hd. case_bool_decide; [done|]. cbn [with_post w_now].
  destruct (extract_item_details _ _ _ _ _) as [[it|] d].
  - case_bool_decide.
    + repeat split; cbn; [congruence..| |congruence].
      by rewrite !fmap_app, Hs.
    + repeat split; cbn; congruence.
  - repeat split; cbn; congruence.
Qed.

Lemma sweep_page_replies w post posted st st' page_url :
  same_but_replies st st' →
  same_but_replies (sweep_page w posted st page_url)
                   (sweep_page (with_post w post) posted st' page_url).
Proof.
  intros (Hd & Hf & Hp & Hn & Hs & Hc). unfold sweep_page, driver_get. rewrite <-Hd.
  destruct (storefront _ _ _) as [pg|e]; [|by repeat split].
  destruct (find_elements pg xp_free) as [els|e]; [|by repeat split].
  apply fold_left_related; [intros ? ? ?; apply process_item_replies|].
  by repeat split.
Qed.

Lemma scrape_replies w post :
  same_but_replies (final (scrape_free_items w))
                   (final (scrape_free_items (with_post w post))).
Proof.
  unfold scrape_free_items. cbn [with_post w_storefront w_disk w_write drv].
  destruct (get_all_crownstore_urls _) as [all_urls d]. cbn [final].
  apply fold_left_related; [intros ? ? ?; apply sweep_page_replies|].
  by repeat split.
Qed.

Lemma scrape_posted_items w :
  posted_items (scrape_free_items w) = load_posted_items (w_disk w).
Proof. unfold scrape_free_items. by destruct (get_all_crownstore_urls _). Qed.

Lemma scrape_disk w :
  disk (scrape_free_items w)
  = save_posted_items (w_write w) (new_posted_items (final (scrape_free_items w)))
                      (w_disk w).
Proof. unfold scrape_free_items. by destruct (get_all_crownstore_urls _). Qed.

Lemma scrape_inspected w :
  inspected (scrape_free_items w)
  = urls_to_check (get_all_crownstore_urls (fresh_session w)).1.
Proof. unfold scrape_free_items. cbn [drv]. by destruct (get_all_crownstore_urls _). Qed.

Lemma get_all_root d : root_url ∈ (get_all_crownstore_urls d).1.
Proof.
  unfold get_all_crownstore_urls, driver_get.
  destruct (storefront _ _ _) as [pg|e]; [|left].
  destruct (find_elements pg (ByTag "a")) as [links|e]; [|left].
  cbn [fst]. apply elem_of_elements. set_solver +.
Qed.


Lemma get_all_NoDup d : NoDup (get_all_crownstore_urls d).1.
Proof.
  unfold get_all_crownstore_urls, driver_get.
  destruct (storefront _ _ _) as [pg|e]; [|apply NoDup_singleton].
  destruct (find_elements pg (ByTag "a")) as [links|e]; [|apply NoDup_singleton].
  apply NoDup_elements.
Qed.

Lemma priority_urls_NoDup : NoDup priority_urls.
Proof. apply (bool_decide_unpack _). vm_compute. exact I. Qed.

Lemma urls_to_check_NoDup all_urls : NoDup all_urls → NoDup (urls_to_check all_urls).
Proof.
  intros H. apply NoDup_app. split; [apply priority_urls_NoDup|]. split.
  - intros u Hu [Hn _]%list_elem_of_filter. done.
  - by apply NoDup_filter.
Qed.

(** ** The addresses the session goes to *)

Lemma fold_left_preserves_in {S X : Type} (I : S → Prop) (f : S → X → S) (l : list X) :
  (∀ st x, x ∈ l → I st → I (f st x)) → ∀ st, I st → I (fold_left f l st).
Proof.
  induction l as [|x l IH]; intros Hf st Hst; cbn [fold_left]; [done|].
  apply IH; [intros ? ? ?; apply Hf; by right|]. apply Hf; [left|done].
Qed.

Lemma target_of_given (item_url u : string) :
  target_of None (Some item_url) = Some u → u = item_url ∧ item_url ≠ EmptyString.
Proof. unfold target_of. destruct item_url; cbn; [done|]. by intros [= <-]. Qed.

Lemma process_item_seen w posted page_url st item_url :
  item_url ∈ processed_urls st → process_item w posted page_url st item_url = st.
Proof. intros H. unfold process_item. by rewrite bool_decide_true. Qed.

Lemma process_item_course w posted page_url st item_url :
  item_url ∉ processed_urls st →
  let e := extract_item_details (drv st) (w_now w (visits (drv st))) None page_url
                                (Some item_url) in
  drv (process_item w posted page_url st item_url) = e.2
  ∧ processed_urls (process_item w posted page_url st item_url)
    = {[ item_url ]} ∪ processed_urls st
  ∧ classified (process_item w posted page_url st item_url)
    = classified st ++ option_list e.1.
Proof.
  intros H. cbn zeta. unfold process_item. rewrite bool_decide_false by done.
  destruct (extract_item_details _ _ _ _ _) as [[it|] d]; cbn [fst snd option_list].
  - by case_bool_decide.
  - by rewrite app_nil_r.
Qed.

Lemma extract_item_details_history d now c cat iu u :
  target_of c iu = Some u →
  history (extract_item_details d now c cat iu).2 = history d ++ [u].
Proof.
  intros H. unfold extract_item_details, driver_get. rewrite H.
  by destruct (storefront d (visits d) u).
Qed.

Lemma process_item_history w posted page_url st item_url :
  item_url ≠ EmptyString → item_url ∉ processed_urls st →
  history (drv (process_item w posted page_url st item_url))
  = history (drv st) ++ [item_url].
Proof.
  intros Hne Hin.
  destruct (process_item_course w posted page_url st item_url Hin) as (-> & _ & _).
  apply extract_item_details_history. by destruct item_url.
Qed.

(** Going through the item addresses of a page, the session goes to
    those not processed before, once each, in the order met. *)
Lemma fold_process_history w posted page_url (l : list string) : ∀ st,
  (∀ x, x ∈ l → x ≠ EmptyString) →
  ∃ ds, history (drv (fold_left (process_item w posted page_url) l st))
        = history (drv st) ++ ds
    ∧ NoDup ds
    ∧ (∀ u, u ∈ ds → u ∉ processed_urls st)
    ∧ (∀ u, u ∈ processed_urls (fold_left (process_item w posted page_url) l st)
            ↔ u ∈ processed_urls st ∨ u ∈ ds).
Proof.
  induction l as [|x l IH]; intros st Hl; cbn [fold_left].
  { exists []. rewrite app_nil_r. split; [done|]. split; [constructor|].
    split; [by intros ? ?%elem_of_nil|]. intros u. split; [by left|].
    by intros [?|?%elem_of_nil]. }
  assert (∀ y, y ∈ l → y ≠ EmptyString) as Hl' by (intros y Hy; apply Hl; by right).
  destruct (decide (x ∈ processed_urls st)) as [Hin|Hin].
  { rewrite process_item_seen by done. by apply IH. }
  destruct (IH (process_item w posted page_url st x) Hl') as (ds & Hh & Hnd & Hdis & Hmem).
  destruct (process_item_course w posted page_url st x Hin) as (_ & Hp & _).
  rewrite process_item_history in Hh by (by try apply Hl; try left).
  rewrite Hp in Hdis. setoid_rewrite Hp in Hmem.
  exists (x :: ds). split; [by rewrite Hh, <-app_assoc|]. split; [|split].
  - constructor; [|done]. intros Hx. apply (Hdis x Hx). set_solver +.
  - intros u [->|Hu]%elem_of_cons; [done|]. specialize (Hdis u Hu). set_solver.
  - intros u. rewrite Hmem, elem_of_cons. set_solver +.
Qed.

(** Inspecting a page, the session goes to the page and then to the
    detail addresses found on it that were not processed before. *)
Lemma sweep_page_history w posted st page_url :
  ∃ ds, history (drv (sweep_page w posted st page_url))
        = history (drv st) ++ page_url :: ds
    ∧ NoDup ds
    ∧ (∀ u, u ∈ ds → u ∉ processed_urls st)
    ∧ (∀ u, u ∈ processed_urls (sweep_page w posted st page_url)
            ↔ u ∈ processed_urls st ∨ u ∈ ds).
Proof.
  assert (∃ ds : list string,
            history (drv st) ++ [page_url] = history (drv st) ++ page_url :: ds
            ∧ NoDup ds ∧ (∀ u, u ∈ ds → u ∉ processed_urls st)
            ∧ (∀ u, u ∈ processed_urls st ↔ u ∈ processed_urls st ∨ u ∈ ds)) as Hnone.
  { exists []. split; [done|]. split; [constructor|].
    split; [by intros ? ?%elem_of_nil|]. intros u. split; [by left|].
    by intros [?|?%elem_of_nil]. }
  unfold sweep_page, driver_get.
  destruct (storefront _ _ _) as [pg|e]; [|exact Hnone].
  rewrite find_free. fold (collected pg).
  match goal with |- context [fold_left ?f ?l ?st0] =>
    destruct (fold_process_history w posted page_url l st0) as (ds & Hh & Hrest)
  end.
  { intros x (m & _ & Hx)%elem_of_elements%collected_member.
    apply leads_to_item in Hx. by apply str_in_nonempty in Hx. }
  exists ds. cbn [drv history processed_urls] in Hh, Hrest.
  split; [by rewrite Hh, <-app_assoc|done].
Qed.

Lemma navigated_next w posted (done : list string) st page_url :
  navigated done st → navigated (done ++ [page_url]) (sweep_page w posted st page_url).
Proof.
  intros (details & Hlen & Hh & Hnd & Hmem).
  destruct (sweep_page_history w posted st page_url) as (ds & Hh' & Hnd' & Hdis & Hmem').
  exists (details ++ [ds]). split; [by rewrite !length_app, Hlen|].
  rewrite zip_with_app, !concat_app by done. cbn [zip_with concat]. rewrite !app_nil_r.
  split; [by rewrite Hh', Hh|]. split.
  - apply NoDup_app. split; [done|]. split; [|done].
    intros u Hu%Hmem Hu'. by apply (Hdis u).
  - intros u. rewrite elem_of_app, Hmem', Hmem. done.
Qed.

Lemma fold_navigated w posted (pages : list string) : ∀ (done : list string) st,
  navigated done st →
  navigated (done ++ pages) (fold_left (sweep_page w posted) pages st).
Proof.
  induction pages as [|p pages IH]; intros done st Hst; cbn [fold_left].
  - by rewrite app_nil_r.
  - rewrite (assoc_L (++) done [p] pages : done ++ p :: pages = (done ++ [p]) ++ pages).
    by apply IH, navigated_next.
Qed.

Lemma get_all_history d :
  history (get_all_crownstore_urls d).2 = history d ++ [root_url].
Proof.
  unfold get_all_crownstore_urls, driver_get.
  destruct (storefront _ _ _) as [pg|e]; [|done].
  by destruct (find_elements pg (ByTag "a")).
Qed.

Lemma scrape_navigated w :
  navigated (inspected (scrape_free_items w)) (final (scrape_free_items w)).
Proof.
  unfold scrape_free_items. cbn [drv].
  pose proof (get_all_history {| storefront := w_storefront w; visits := 0;
                                 history := [] |}) as Hh.
  destruct (get_all_crownstore_urls _) as [all_urls d]. cbn [snd] in Hh.
  cbn [inspected final].
  apply (fold_navigated _ _ _ []). exists []. cbn. rewrite Hh.
  split; [done|]. split; [done|]. split; [constructor|]. set_solver +.
Qed.

(** With the root page out of reach and two items on the first priority
    page, the session goes to the root address, to that page, to the two
    items, to the other priority pages and to the root address again. *)
Lemma history_world_two :
  history (drv (final (scrape_free_items world_two)))
  = root_url :: companions :: item_1 :: item_2 :: tail priority_urls ++ [root_url].
Proof. vm_compute. reflexivity. Qed.

(** ** The Ledger during the sweep *)

Lemma dispatched_not_in_ledger (w : world) (it : item_details) (b : bool) :
  (it, b) ∈ dispatched (final (scrape_free_items w)) →
  item_id it ∉ load_posted_items (w_disk w).
Proof.
  intros Hin. destruct (scrape_inv w) as [Hfree Hsent _].
  rewrite scrape_posted_items in Hfree.
  assert (it ∈ (dispatched (final (scrape_free_items w))).*1) as Hit
    by (apply list_elem_of_fmap; by exists (it, b)).
  rewrite Hsent, Hfree in Hit. by apply list_elem_of_filter in Hit as [? _].
Qed.

Lemma classified_new_in_artifact (w : world) (it : item_details) :
  it ∈ classified (final (scrape_free_items w)) →
  item_id it ∉ load_posted_items (w_disk w) →
  it ∈ free_items (final (scrape_free_items w)).
Proof.
  intros Hin Hid. destruct (scrape_inv w) as [Hfree _ _].
  rewrite scrape_posted_items in Hfree. rewrite Hfree.
  by apply list_elem_of_filter.
Qed.

Lemma artifact_in_new_posted (w : world) (it : item_details) :
  it ∈ free_items (final (scrape_free_items w)) →
  item_id it ∈ new_posted_items (final (scrape_free_items w)).
Proof.
  intros Hin. destruct (scrape_inv w) as [_ _ Hnew]. rewrite Hnew.
  apply elem_of_union_r, elem_of_list_to_set, list_elem_of_fmap. by exists it.
Qed.

Lemma new_posted_well_formed (w : world) (m : unicode) :
  m ∈ new_posted_items (final (scrape_free_items w)) → well_formed m.
Proof.
  destruct (scrape_inv w) as [_ _ Hnew]. rewrite Hnew, scrape_posted_items.
  intros [H|H]%elem_of_union.
  - by apply load_posted_items_sound in H.
  - apply elem_of_list_to_set, list_elem_of_fmap in H as (it & -> & _).
    apply codes_well_formed.
Qed.

(** * The claims *)

(** C1, which the code does not meet. An identity found in the Ledger
    loaded at the start is never notified ([dispatched_not_in_ledger]),
    but the test reads the Ledger as loaded, not the identities added
    during the run: with an empty Ledger and two detail pages that show
    the same name and flag, the run sends two notifications for the one
    identity. *)
Theorem C1_same_identity_notified_twice :
  load_posted_items (w_disk world_two) = ∅
  ∧ dispatched (final (scrape_free_items world_two))
    = [(senche item_1, true); (senche item_2, true)]
  ∧ item_id (senche item_1) = item_id (senche item_2)
  ∧ item_1 ≠ item_2.
Proof. repeat split; [vm_compute; reflexivity..|discriminate]. Qed.

(** C2, as the claim words it, fails: with the only free item already in
    the Ledger, the run classifies one record and writes an empty
    artifact. *)
Lemma C2_known_item_left_out :
  classified (final (scrape_free_items world_known)) = [senche item_1]
  ∧ item_id (senche item_1) ∈ load_posted_items (w_disk world_known)
  ∧ output_artifact world_known = [].
Proof.
  split; [vm_compute; reflexivity|]. split; [|vm_compute; reflexivity].
  apply (bool_decide_unpack _). vm_compute. exact I.
Qed.

(** C2, amended. The output artifact holds, in the order of
    classification, records classified during the run whose identity was
    not in the Ledger loaded at the start, at least one for each such
    identity; records whose identity was in that Ledger are left out. *)
Theorem C2_artifact_holds_new_items (w : world) :
  let r := scrape_free_items w in
  sublist (output_artifact w) (classified (final r))
  ∧ (∀ it, it ∈ output_artifact w → item_id it ∉ load_posted_items (w_disk w))
  ∧ (∀ it, it ∈ classified (final r) → item_id it ∉ load_posted_items (w_disk w) →
       (∃ it', it' ∈ output_artifact w ∧ item_id it' = item_id it)).
Proof.
  cbn zeta. unfold output_artifact. destruct (scrape_inv w) as [Hfree _ _].
  rewrite scrape_posted_items in Hfree. split; [|split].
  - rewrite Hfree. apply sublist_filter.
  - intros it Hit. rewrite Hfree in Hit. by apply list_elem_of_filter in Hit as [? _].
  - intros it Hit Hid. exists it. split; [|done]. by apply classified_new_in_artifact.
Qed.

Lemma C2_artifact_holds_new_items_witness :
  senche item_1 ∈ classified (final (scrape_free_items world_mute))
  ∧ (item_id (senche item_1) ∉ load_posted_items (w_disk world_mute))
  ∧ (∃ it', it' ∈ output_artifact world_mute ∧ item_id it' = item_id (senche item_1)).
Proof.
  assert (senche item_1 ∈ classified (final (scrape_free_items world_mute))) as Hc
    by (vm_compute; left).
  assert (item_id (senche item_1) ∉ load_posted_items (w_disk world_mute)) as Hn
    by (apply (bool_decide_unpack _); vm_compute; exact I).
  split; [exact Hc|]. split; [exact Hn|].
  exact (proj2 (proj2 (C2_artifact_holds_new_items world_mute)) _ Hc Hn).
Defined.

(** C3, as the claim words it, fails: [contains(text(), ...)] looks at
    the first text node of an element only. On a page where one element
    shows the marker, a line break and the deal phrase, the text of that
    element contains both, yet the flag is not set. *)
Lemma C3_text_in_two_parts :
  (extract_item_details (serving detail_split) noon None companions
                        (Some item_1)).1 = Some (senche item_1)
  ∧ is_eso_plus_free (senche item_1) = false
  ∧ (∃ e, e ∈ all_elements detail_split
          ∧ str_in "FREE!" (text e) = true
          ∧ str_in "With ESO Plus Deal" (text e) = true).
Proof.
  split; [reflexivity|]. split; [reflexivity|].
  eexists. split; [compute; do 3 right; left|]. split; reflexivity.
Qed.

(** C3, amended. When [extract_item_details] yields a record, the page it
    was taken from decides the flag: it is set exactly when some element
    whose first text node contains the marker carries the loyalty class
    itself or below an element that carries it, or the first text node of
    some element contains both the marker and the deal phrase. A loyalty
    class or deal phrase anywhere else on the page leaves the flag
    unset. *)
Theorem C3_subscription_flag (d : driver) (now : string)
    (item_container : option WebElement) (cat : string) (item_url : option string)
    (it : item_details) :
  (extract_item_details d now item_container cat item_url).1 = Some it →
  ∃ pg, storefront d (visits d) (url it) = Ok pg
    ∧ (is_eso_plus_free it = true ↔
         (∃ m a, m ∈ all_elements pg ∧ str_in "FREE!" (xp_text m) = true
                 ∧ (a ∈ ancestors m ∨ a = m)
                 ∧ str_in "eso-plus-loyalty" (xp_attr a "class") = true)
         ∨ (∃ e, e ∈ all_elements pg ∧ str_in "FREE!" (xp_text e) = true
                 ∧ str_in "With ESO Plus Deal" (xp_text e) = true)).
Proof.
  intros (u & pg & _ & Hpg & Hit)%extract_item_details_Some.
  apply inspect_item_Some in Hit as (_ & _ & <- & _ & _ & _ & Hflag).
  exists pg. split; [done|]. rewrite Hflag. clear Hflag.
  assert (∀ e, e ∈ deal_texts pg ↔
               e ∈ all_elements pg ∧ str_in "FREE!" (xp_text e) = true
               ∧ str_in "With ESO Plus Deal" (xp_text e) = true) as Hdeal.
  { intros e. unfold deal_texts. rewrite list_elem_of_filter. cbn [holds].
    rewrite andb_True, !Is_true_true. tauto. }
  assert (∀ m, m ∈ free_markers pg ↔
               m ∈ all_elements pg ∧ str_in "FREE!" (xp_text m) = true) as Hmark.
  { intros m. unfold free_markers. rewrite list_elem_of_filter. cbn [holds].
    rewrite Is_true_true. tauto. }
  destruct (deal_texts pg) as [|e hits] eqn:Hd.
  - rewrite loyalty_scan_true. split.
    + intros (m & Hm%Hmark & a & Ha & Hc). left. exists m, a. tauto.
    + intros [(m & a & Hm & Hf & Ha & Hc)|(e & He)].
      * exists m. split; [by apply Hmark|]. by exists a.
      * apply Hdeal in He. by apply elem_of_nil in He.
  - split; [intros _|done]. right. exists e. apply Hdeal. left.
Qed.

Lemma C3_subscription_flag_witness :
  (extract_item_details (serving detail_elsewhere) noon None companions
                        (Some item_1)).1 = Some (senche item_1)
  ∧ (∃ pg, storefront (serving detail_elsewhere) 0 item_1 = Ok pg
      ∧ (false = true ↔
           (∃ m a, m ∈ all_elements pg ∧ str_in "FREE!" (xp_text m) = true
                   ∧ (a ∈ ancestors m ∨ a = m)
                   ∧ str_in "eso-plus-loyalty" (xp_attr a "class") = true)
           ∨ (∃ e, e ∈ all_elements pg ∧ str_in "FREE!" (xp_text e) = true
                   ∧ str_in "With ESO Plus Deal" (xp_text e) = true))).
Proof.
  split; [reflexivity|].
  exact (C3_subscription_flag (serving detail_elsewhere) noon None companions
           (Some item_1) (senche item_1) eq_refl).
Defined.

(** C4. A record comes out of [extract_item_details] only from a page
    that holds a marker and a heading whose trimmed text is non-empty,
    longer than two characters and free of the two chrome phrases, and
    that text is the record's name. A page without a marker gives no
    record, and so does a page on which no name selector yields such a
    text. *)
Theorem C4_record_needs_marker_and_name (d : driver) (now : string)
    (item_container : option WebElement) (cat : string) (item_url : option string) :
  (∀ it, (extract_item_details d now item_container cat item_url).1 = Some it →
     ∃ pg, storefront d (visits d) (url it) = Ok pg
       ∧ (∃ m, m ∈ all_elements pg ∧ str_in "FREE!" (xp_text m) = true)
       ∧ (∃ sel els e, sel ∈ name_selectors ∧ find_elements pg sel = Ok els
                       ∧ e ∈ els ∧ strip (text e) = name it)
       ∧ name it ≠ EmptyString ∧ 2 < len (name it)
       ∧ str_in "crown store" (lower (name it)) = false
       ∧ str_in "purchase crowns" (lower (name it)) = false)
  ∧ (∀ u pg, target_of item_container item_url = Some u →
       storefront d (visits d) u = Ok pg →
       (∀ m, m ∈ all_elements pg → str_in "FREE!" (xp_text m) = false) →
       (extract_item_details d now item_container cat item_url).1 = None)
  ∧ (∀ u pg, target_of item_container item_url = Some u →
       storefront d (visits d) u = Ok pg →
       (∀ sel els e, sel ∈ name_selectors → find_elements pg sel = Ok els → e ∈ els →
          strip (text e) = EmptyString ∨ len (strip (text e)) ≤ 2
          ∨ str_in "crown store" (lower (strip (text e))) = true
          ∨ str_in "purchase crowns" (lower (strip (text e))) = true) →
       (extract_item_details d now item_container cat item_url).1 = None).
Proof.
  split; [|split].
  - intros it (u & pg & _ & Hpg & Hit)%extract_item_details_Some.
    apply inspect_item_Some in Hit as (Hm & Hn & <- & _).
    exists pg. split; [done|]. split.
    + destruct (free_markers pg) as [|m ms] eqn:Hf; [done|].
      exists m. assert (m ∈ free_markers pg) as Hin by (rewrite Hf; left).
      apply list_elem_of_filter in Hin as [Hh Hin]. split; [done|].
      by apply Is_true_true.
    + apply resolve_name_Some in Hn as (sel & els & e & ? & ? & ? & ? & Hok).
      apply name_ok_true in Hok. split; [by exists sel, els, e|done].
  - intros u pg Ht Hpg Hnone. rewrite (extract_item_details_on _ _ _ _ _ u pg) by done.
    apply inspect_item_None_markers.
    destruct (free_markers pg) as [|m ms] eqn:Hf; [done|].
    assert (m ∈ free_markers pg) as Hin by (rewrite Hf; left).
    apply list_elem_of_filter in Hin as [Hh Hin]. cbn [holds] in Hh.
    apply Is_true_true in Hh. rewrite (Hnone m Hin) in Hh. discriminate.
  - intros u pg Ht Hpg Hnone. rewrite (extract_item_details_on _ _ _ _ _ u pg) by done.
    apply inspect_item_None_name, resolve_name_none.
    intros sel els e Hsel Hf He.
    destruct (name_ok (strip (text e))) eqn:Hok; [|done].
    apply name_ok_true in Hok as (? & ? & ? & ?).
    destruct (Hnone sel els e Hsel Hf He) as [?|[?|[?|?]]]; [done|lia|congruence..].
Qed.

Lemma C4_record_needs_marker_and_name_witness :
  (∃ pg, storefront (serving detail_loyalty) 0 item_1 = Ok pg
     ∧ (∃ m, m ∈ all_elements pg ∧ str_in "FREE!" (xp_text m) = true)
     ∧ (∃ sel els e, sel ∈ name_selectors ∧ find_elements pg sel = Ok els
                     ∧ e ∈ els ∧ strip (text e) = "Sword of Testing"))
  ∧ (extract_item_details (serving detail_no_marker) noon None companions
                          (Some item_1)).1 = None
  ∧ (extract_item_details (serving detail_chrome) noon None companions
                          (Some item_1)).1 = None.
Proof.
  split; [|split].
  - destruct (proj1 (C4_record_needs_marker_and_name (serving detail_loyalty) noon
                       None companions (Some item_1))
                    {| name := "Sword of Testing"; url := item_1;
                       category_url := companions; image_url := Some asset_big;
                       is_eso_plus_free := true; found_date := noon |} eq_refl)
      as (pg & Hpg & Hm & Hn & _).
    exists pg. by repeat split.
  - apply (proj1 (proj2 (C4_record_needs_marker_and_name (serving detail_no_marker)
                           noon None companions (Some item_1)))
                 item_1 detail_no_marker eq_refl eq_refl).
    apply Forall_forall, (bool_decide_unpack _). vm_compute. exact I.
  - apply (proj2 (proj2 (C4_record_needs_marker_and_name (serving detail_chrome)
                           noon None companions (Some item_1)))
                 item_1 detail_chrome eq_refl eq_refl).
    intros sel els e Hsel Hf He.
    repeat (apply elem_of_cons in Hsel as [->|Hsel]);
      [..|by apply elem_of_nil in Hsel];
      vm_compute in Hf; try discriminate Hf; injection Hf as <-;
      repeat (apply elem_of_cons in He as [->|He]);
      try (by apply elem_of_nil in He).
    right. right. left. vm_compute. reflexivity.
Defined.

Lemma recorded_Some (img : WebElement) (u : string) (a : Z) :
  recorded img = Some (u, a) ↔
  get_attribute img "src" = Some u ∧ u ≠ EmptyString
  ∧ str_in "akamaihd.net" u = true ∧ str_in "/ape/uploads/" u = true
  ∧ str_in "icon-crown" u = false
  ∧ ((∃ w h, element_size img = Ok (w, h) ∧ 100 < w ∧ 100 < h ∧ a = w * h)
     ∨ (∃ e, element_size img = Raise e ∧ a = 0)).
Proof.
  unfold recorded. destruct (get_attribute img "src") as [s|]; [|split; [done|by intros [? _]]].
  destruct (negb (String.eqb s EmptyString)) eqn:Hs;
    [apply negb_true_iff, String.eqb_neq in Hs
    |apply negb_false_iff, String.eqb_eq in Hs].
  2:{ cbn [andb]. split; [done|]. intros ([= ->] & ? & _). done. }
  destruct (str_in "akamaihd.net" s) eqn:H1, (str_in "/ape/uploads/" s) eqn:H2,
    (str_in "icon-crown" s) eqn:H3; cbn [andb negb];
    try (split; [done|]; intros ([= <-] & _ & ? & ? & ? & _); congruence).
  destruct (element_size img) as [[w h]|e].
  - destruct (100 <? w) eqn:Hw, (100 <? h) eqn:Hh; cbn [andb];
      rewrite ?Z.ltb_lt, ?Z.ltb_ge in *.
    + split.
      * intros [= <- <-]. repeat split; try done. left. by exists w, h.
      * intros ([= <-] & _ & _ & _ & _ & [(w' & h' & [= <- <-] & _ & _ & ->)|(e & ? & _)]);
          done.
    + split; [done|].
      intros (_ & _ & _ & _ & _ & [(w' & h' & [= <- <-] & ? & ? & _)|(e & ? & _)]);
        [lia|done].
    + split; [done|].
      intros (_ & _ & _ & _ & _ & [(w' & h' & [= <- <-] & ? & ? & _)|(e & ? & _)]);
        [lia|done].
    + split; [done|].
      intros (_ & _ & _ & _ & _ & [(w' & h' & [= <- <-] & ? & ? & _)|(e & ? & _)]);
        [lia|done].
  - split.
    + intros [= <- <-]. repeat split; try done. right. by exists e.
    + intros ([= <-] & _ & _ & _ & _ & [(w' & h' & ? & _)|(e' & _ & ->)]); done.
Qed.

Lemma inspect_item_is_Some (pg : page) (now u cat n : string) :
  free_markers pg ≠ [] → resolve_name pg name_selectors = Ok (Some n) →
  is_Some (inspect_item pg now u cat).
Proof.
  intros Hm Hn. unfold inspect_item. rewrite find_free, find_free_with_deal, Hn.
  destruct (free_markers pg); [done|].
  apply resolve_name_Some in Hn as (_ & _ & _ & _ & _ & _ & _ & Hok).
  apply name_ok_true in Hok as [Hne _]. destruct n; [done|]. by eexists.
Qed.

(** C5, as the claim words it, fails in three ways. A large image whose
    address has the asset path but not the host [akamaihd.net] is not
    selected; an image whose size cannot be read is selected; and when
    one address is shown large first and smaller later, another image
    of smaller area than the first is selected. *)
Lemma C5_selection_departs_from_stated :
  ((image_url <$> (extract_item_details (serving detail_other_host) noon None
                     companions (Some item_1)).1) = Some None
   ∧ ¬ stated_image_url detail_other_host None)
  ∧ ((image_url <$> (extract_item_details (serving detail_unreadable) noon None
                       companions (Some item_1)).1) = Some (Some asset_big)
     ∧ ¬ stated_image_url detail_unreadable (Some asset_big))
  ∧ ((image_url <$> (extract_item_details (serving detail_repeated) noon None
                       companions (Some item_1)).1) = Some (Some asset_mid)
     ∧ ¬ stated_image_url detail_repeated (Some asset_mid)).
Proof.
  split; [|split]; (split; [vm_compute; reflexivity|]).
  - intros H. specialize (H {| we_node := image asset_elsewhere 300 200;
                               we_ancestors := _ |}
                            ltac:(vm_compute; left)).
    vm_compute in H. discriminate.
  - intros (img & a & Hin & Hc & _). vm_compute in Hin.
    apply list_elem_of_singleton in Hin as ->. vm_compute in Hc. discriminate.
  - intros (img & a & Hin & Hc & Hmax). vm_compute in Hin.
    specialize (Hmax {| we_node := image asset_big 300 300; we_ancestors := _ |}
                     asset_big 90000 ltac:(vm_compute; left) eq_refl).
    repeat (apply elem_of_cons in Hin as [->|Hin]); [..|by apply elem_of_nil in Hin];
      vm_compute in Hc; first [discriminate Hc | injection Hc as <-; lia].
Qed.

(** C5, amended. The images considered are those whose address is
    non-empty, contains [akamaihd.net] and [/ape/uploads/] and does not
    contain [icon-crown]. Such an image is recorded with area width x
    height when both sides exceed 100, with area 0 when its size cannot
    be read, and not at all otherwise; an address shown by several
    recorded images keeps the area of the last one. The record's image
    address is absent exactly when no image is recorded, and otherwise is
    an address of greatest recorded area. Whatever the images are, a page
    with a marker and a name yields a record. *)
Theorem C5_image_of_greatest_recorded_area (d : driver) (now : string)
    (item_container : option WebElement) (cat : string) (item_url : option string) :
  (∀ it, (extract_item_details d now item_container cat item_url).1 = Some it →
     ∃ pg imgs, storefront d (visits d) (url it) = Ok pg
       ∧ find_elements pg xp_images = Ok imgs
       ∧ (image_url it = None ↔ ∀ img, img ∈ imgs → recorded img = None)
       ∧ (∀ u, image_url it = Some u →
            ∃ a, last_recorded imgs u a
                 ∧ ∀ u' a', last_recorded imgs u' a' → a' ≤ a))
  ∧ (∀ u pg n, target_of item_container item_url = Some u →
       storefront d (visits d) u = Ok pg →
       free_markers pg ≠ [] → resolve_name pg name_selectors = Ok (Some n) →
       is_Some (extract_item_details d now item_container cat item_url).1).
Proof.
  split.
  - intros it (u & pg & _ & Hpg & Hit)%extract_item_details_Some.
    apply inspect_item_Some in Hit as (_ & _ & <- & _ & _ & Himg & _).
    exists pg. eexists. split; [done|]. split; [apply find_images|].
    rewrite Himg. apply main_image_spec, find_images.
  - intros u pg n Ht Hpg Hm Hn. rewrite (extract_item_details_on _ _ _ _ _ u pg) by done.
    by apply (inspect_item_is_Some _ _ _ _ n).
Qed.

Lemma C5_image_of_greatest_recorded_area_witness :
  (∃ pg imgs, storefront (serving detail_loyalty) 0 item_1 = Ok pg
     ∧ find_elements pg xp_images = Ok imgs
     ∧ (∃ a, last_recorded imgs asset_big a
             ∧ ∀ u' a', last_recorded imgs u' a' → a' ≤ a))
  ∧ is_Some (extract_item_details (serving detail_unreadable) noon None companions
                                  (Some item_1)).1.
Proof.
  split.
  - destruct (proj1 (C5_image_of_greatest_recorded_area (serving detail_loyalty) noon
                       None companions (Some item_1))
                    {| name := "Sword of Testing"; url := item_1;
                       category_url := companions; image_url := Some asset_big;
                       is_eso_plus_free := true; found_date := noon |} eq_refl)
      as (pg & imgs & Hpg & Himgs & _ & Hmax).
    exists pg, imgs. split; [exact Hpg|]. split; [exact Himgs|].
    exact (Hmax asset_big eq_refl).
  - apply (proj2 (C5_image_of_greatest_recorded_area (serving detail_unreadable) noon
                    None companions (Some item_1))
                 item_1 detail_unreadable "Nightmare Senche" eq_refl eq_refl).
    + vm_compute. discriminate.
    + vm_compute. reflexivity.
Defined.

(** C6. An item classified during the run whose identity is not in the
    Ledger as loaded has its identity in the set handed to
    [save_posted_items], and in the Ledger file when the write completes.
    The set and the file are the same whatever the notification channel
    answers. *)
Theorem C6_delivery_does_not_undo (w : world)
    (post : nat → string → discord_message → result Z) (it : item_details) :
  let r := scrape_free_items (with_post w post) in
  it ∈ classified (final r) →
  item_id it ∉ load_posted_items (w_disk w) →
  item_id it ∈ new_posted_items (final r)
  ∧ new_posted_items (final r) = new_posted_items (final (scrape_free_items w))
  ∧ disk r = disk (scrape_free_items w)
  ∧ (w_write w = Written → item_id it ∈ load_posted_items (disk r)).
Proof.
  cbn zeta. intros Hin Hid.
  destruct (scrape_replies w post) as (_ & _ & _ & Hnew & _).
  assert (item_id it ∈ new_posted_items (final (scrape_free_items (with_post w post))))
    as Hmem by (by apply artifact_in_new_posted, classified_new_in_artifact).
  split; [done|]. split; [done|]. rewrite !scrape_disk. cbn [with_post w_write w_disk].
  split; [by rewrite Hnew|]. intros ->.
  by rewrite load_save by apply new_posted_well_formed.
Qed.

Lemma C6_delivery_does_not_undo_witness :
  senche item_1 ∈ classified (final (scrape_free_items (with_post world_two rejects)))
  ∧ (item_id (senche item_1) ∉ load_posted_items (w_disk world_two))
  ∧ dispatched (final (scrape_free_items (with_post world_two rejects)))
    = [(senche item_1, false); (senche item_2, false)]
  ∧ item_id (senche item_1)
    ∈ load_posted_items (disk (scrape_free_items (with_post world_two rejects))).
Proof.
  assert (senche item_1
          ∈ classified (final (scrape_free_items (with_post world_two rejects)))) as Hc
    by (vm_compute; left).
  assert (item_id (senche item_1) ∉ load_posted_items (w_disk world_two)) as Hn
    by (apply (bool_decide_unpack _); vm_compute; exact I).
  split; [exact Hc|]. split; [exact Hn|]. split; [vm_compute; reflexivity|].
  exact (proj2 (proj2 (proj2 (C6_delivery_does_not_undo world_two rejects
                                (senche item_1) Hc Hn))) eq_refl).
Defined.






(** C9. The session of a run goes to the root listing address for
    discovery and then to the pages it inspects, one after the other,
    going after each to the detail addresses found on it that it has not
    been to; the pages are the priority addresses in their fixed order
    followed by the discovered addresses that are not priority addresses,
    in the order discovery returned them. No page is inspected twice,
    every discovered address is inspected, and a priority address is
    inspected at its place in the priority list. *)
Theorem C9_priority_first_no_repeats (w : world) :
  let discovered := (get_all_crownstore_urls (fresh_session w)).1 in
  let pages := priority_urls ++ filter (λ u, u ∉ priority_urls) discovered in
  inspected (scrape_free_items w) = pages
  ∧ (∃ details : list (list string),
       length details = length pages
       ∧ history (drv (final (scrape_free_items w)))
         = root_url :: concat (zip_with cons pages details)
       ∧ NoDup (concat details)
       ∧ ∀ u, u ∈ concat details ↔ u ∈ processed_urls (final (scrape_free_items w)))
  ∧ NoDup pages
  ∧ (∀ u, u ∈ pages ↔ u ∈ priority_urls ∨ u ∈ discovered)
  ∧ (∀ u, u ∈ priority_urls ↔
          ∃ i, (i < length priority_urls)%nat ∧ pages !! i = Some u).
Proof.
  cbn zeta. pose proof (scrape_navigated w) as Hnav.
  rewrite scrape_inspected in *.
  split; [done|]. split; [exact Hnav|].
  split; [apply urls_to_check_NoDup, get_all_NoDup|]. split.
  - intros u. rewrite elem_of_app, list_elem_of_filter.
    destruct (decide (u ∈ priority_urls)); tauto.
  - intros u. split.
    + intros (i & Hi)%list_elem_of_lookup. exists i.
      split; [by apply lookup_lt_Some in Hi|]. by apply lookup_app_l_Some.
    + intros (i & Hlt & Hi). rewrite lookup_app_l in Hi by done.
      by apply list_elem_of_lookup_2 in Hi.
Qed.

(** C10. The set handed to [save_posted_items] contains the Ledger as
    loaded and the identity of every item notified during the run; it is
    what is written, and when the write completes the Ledger file loads
    back to it, so the Ledger read by the next run contains the Ledger
    read by this one. *)
Theorem C10_ledger_only_grows (w : world) :
  let r := scrape_free_items w in
  load_posted_items (w_disk w) ⊆ new_posted_items (final r)
  ∧ (∀ it b, (it, b) ∈ dispatched (final r) →
             item_id it ∈ new_posted_items (final r))
  ∧ disk r = save_posted_items (w_write w) (new_posted_items (final r)) (w_disk w)
  ∧ (w_write w = Written →
     load_posted_items (disk r) = new_posted_items (final r)
     ∧ load_posted_items (w_disk w) ⊆ load_posted_items (disk r)).
Proof.
  cbn zeta. destruct (scrape_inv w) as [_ Hsent Hnew].
  rewrite scrape_posted_items in Hnew.
  assert (load_posted_items (w_disk w) ⊆ new_posted_items (final (scrape_free_items w)))
    as Hsub by (rewrite Hnew; apply union_subseteq_l).
  split; [done|]. split; [|split; [apply scrape_disk|]].
  - intros it b Hin. apply artifact_in_new_posted. rewrite <-Hsent.
    apply list_elem_of_fmap. by exists (it, b).
  - intros Hw. rewrite scrape_disk, Hw, load_save by apply new_posted_well_formed.
    done.
Qed.

Lemma C10_ledger_only_grows_witness :
  w_write world_known = Written
  ∧ load_posted_items (disk (scrape_free_items world_known))
    = new_posted_items (final (scrape_free_items world_known))
  ∧ load_posted_items (w_disk world_known)
    ⊆ load_posted_items (disk (scrape_free_items world_known)).
Proof.
  split; [reflexivity|].
  exact (proj2 (proj2 (proj2 (C10_ledger_only_grows world_known))) eq_refl).
Defined.

(** * Lemmas for the further properties *)

(** ** Discovery *)

Lemma startswith_nonempty (u p : string) :
  startswith u p = true → p ≠ EmptyString → u ≠ EmptyString.
Proof. destruct p, u; cbn; congruence. Qed.

Lemma add_link_member (acc : gset string) (link : WebElement) (u : string) :
  u ∈ add_link acc link ↔
  u ∈ acc ∨ (get_attribute link "href" = Some u ∧ startswith u root_url = true).
Proof.
  unfold add_link.
  destruct (get_attribute link "href") as [h|]; cbn [default from_option id].
  - destruct (startswith h root_url) eqn:Hs.
    + assert (truthy (Some h) = true) as ->.
      { apply startswith_nonempty in Hs; [|done]. by destruct h. }
      cbn [andb]. rewrite elem_of_union, elem_of_singleton. split.
      * intros [->|?]; [by right|by left].
      * intros [?|[[= ->] _]]; [by right|by left].
    + rewrite andb_false_r. split; [by left|]. intros [?|[[= ->] ?]]; [done|congruence].
  - cbn [truthy andb]. split; [by left|]. by intros [?|[? _]].
Qed.

Lemma fold_add_link (links : list WebElement) : ∀ (acc : gset string) (u : string),
  u ∈ fold_left add_link links acc ↔
  u ∈ acc ∨ ∃ link, link ∈ links ∧ get_attribute link "href" = Some u
                    ∧ startswith u root_url = true.
Proof.
  induction links as [|link links IH]; intros acc u; cbn [fold_left].
  - split; [by left|]. intros [?|(? & ?%elem_of_nil & _)]; done.
  - rewrite IH, add_link_member. split.
    + intros [[?|?]|(l & ? & ?)];
        [by left|right; exists link; split; [left|done]
        |right; exists l; split; [by right|done]].
    + intros [?|(l & [->|?]%elem_of_cons & ?)];
        [left; by left|left; by right|right; by exists l].
Qed.

Lemma get_all_on (d : driver) (pg : page) :
  storefront d (visits d) root_url = Ok pg →
  (get_all_crownstore_urls d).1
  = elements ({[ root_url ]} ∪ fold_left add_link
                 (filter (λ e, has_tag "a" e) (all_elements pg)) ∅).
Proof. intros H. unfold get_all_crownstore_urls, driver_get. by rewrite H. Qed.

Lemma get_all_members (d : driver) (u : string) :
  u ∈ (get_all_crownstore_urls d).1 → startswith u root_url = true.
Proof.
  unfold get_all_crownstore_urls, driver_get.
  destruct (storefront _ _ _) as [pg|e]; [|by intros ->%list_elem_of_singleton].
  cbn [find_elements fst].
  rewrite elem_of_elements, elem_of_union, elem_of_singleton, fold_add_link.
  intros [->|[?%not_elem_of_empty|(link & _ & _ & ?)]]; done.
Qed.

(** ** Trimming *)

Lemma append_nil_r (s : string) : s +:+ EmptyString = s.
Proof.
  induction s as [|c s IH]; [done|].
  change (String c (s +:+ EmptyString) = String c s). by rewrite IH.
Qed.

Lemma rev_app_append (s1 s2 : string) :
  String.rev_app s1 s2 = String.rev s1 +:+ s2.
Proof.
  unfold String.rev. revert s2. induction s1 as [|c s1 IH]; intros s2; [done|].
  cbn [String.rev_app]. rewrite (IH (String c s2)), (IH (String c EmptyString)).
  by rewrite append_assoc.
Qed.

Lemma rev_append (a b : string) :
  String.rev (a +:+ b) = String.rev b +:+ String.rev a.
Proof.
  induction a as [|c a IH]; [by rewrite append_nil_r|].
  change (String.rev_app (a +:+ b) (String c EmptyString)
          = String.rev b +:+ String.rev_app a (String c EmptyString)).
  by rewrite !rev_app_append, IH, append_assoc.
Qed.

Lemma rev_involutive (s : string) : String.rev (String.rev s) = s.
Proof.
  induction s as [|c s IH]; [done|].
  change (String.rev (String.rev_app s (String c EmptyString)) = String c s).
  by rewrite rev_app_append, rev_append, IH.
Qed.


Lemma lstrip_clean (s : string) : clean_head (lstrip s) = true.
Proof.
  induction s as [|c s IH]; [done|]. cbn [lstrip].
  destruct (is_py_space c) eqn:Hc; [done|]. cbn. by rewrite Hc.
Qed.

Lemma lstrip_id (s : string) : clean_head s = true → lstrip s = s.
Proof. destruct s as [|c s]; [done|]. cbn. by intros ->%negb_true_iff. Qed.

Lemma lstrip_suffix (s : string) : ∃ ws, s = ws +:+ lstrip s.
Proof.
  induction s as [|c s [ws IH]]; [by exists EmptyString|]. cbn [lstrip].
  destruct (is_py_space c); [|by exists EmptyString].
  exists (String c ws). change (String c s = String c (ws +:+ lstrip s)). by rewrite <-IH.
Qed.

Lemma clean_head_prefix (a b : string) :
  clean_head (a +:+ b) = true → a ≠ EmptyString → clean_head a = true.
Proof. by destruct a. Qed.

Lemma strip_clean (s : string) :
  clean_head (strip s) = true ∧ clean_head (String.rev (strip s)) = true.
Proof.
  unfold strip. rewrite rev_involutive. split; [|apply lstrip_clean].
  destruct (lstrip_suffix (String.rev (lstrip s))) as [ws Hws].
  destruct (lstrip (String.rev (lstrip s))) as [|c t] eqn:Ht; [done|].
  apply (clean_head_prefix _ (String.rev ws)).
  2:{ intros H. apply (f_equal String.rev) in H. by rewrite rev_involutive in H. }
  rewrite <-rev_append, <-Hws, rev_involutive. apply lstrip_clean.
Qed.

Lemma strip_idempotent (s : string) : strip (strip s) = strip s.
Proof.
  destruct (strip_clean s) as [H1 H2]. unfold strip at 1.
  by rewrite (lstrip_id _ H1), (lstrip_id _ H2), rev_involutive.
Qed.

(** ** Names *)

Lemma first_name_first (els : list WebElement) (n : string) :
  first_name els = Some n ↔ ∃ e, first_where has_name els e ∧ strip (text e) = n.
Proof.
  induction els as [|y els IH]; cbn [first_name].
  - split; [done|]. by intros (? & ?%first_where_nil & _).
  - setoid_rewrite first_where_cons. fold (has_name y).
    destruct (has_name y) eqn:Hy.
    + split.
      * intros [= <-]. exists y. split; [by left|done].
      * intros (e & [[_ ->]|[? _]] & <-); done.
    + rewrite IH. split.
      * intros (e & ? & ?). exists e. split; [by right|done].
      * intros (e & [[? _]|[_ ?]] & ?); [done|]. by exists e.
Qed.

Lemma first_name_None_inv (els : list WebElement) :
  first_name els = None → ∀ e, e ∈ els → has_name e = false.
Proof.
  induction els as [|y els IH]; [by intros _ ? ?%elem_of_nil|]. cbn [first_name].
  fold (has_name y). destruct (has_name y) eqn:Hy; [done|].
  intros H e [->|?]%elem_of_cons; auto.
Qed.

Lemma resolve_name_headings (pg : page) :
  resolve_name pg name_selectors
  = match first_name (tagged "h1" pg) with
    | Some n => Ok (Some n)
    | None =>
        match first_name (tagged "h2" pg) with
        | Some n => Ok (Some n)
        | None =>
            match first_name (tagged "h3" pg) with
            | Some n => Ok (Some n)
            | None => Raise InvalidSelectorException
            end
        end
    end.
Proof. reflexivity. Qed.

Lemma resolve_name_source (pg : page) (n : string) :
  resolve_name pg name_selectors = Ok (Some n) →
  ∃ tag e, tag ∈ heading_tags ∧ first_where has_name (tagged tag pg) e
           ∧ strip (text e) = n
           ∧ ∀ tag' e' i j, heading_tags !! i = Some tag' → heading_tags !! j = Some tag →
                            (i < j)%nat → e' ∈ tagged tag' pg → has_name e' = false.
Proof.
  rewrite resolve_name_headings.
  destruct (first_name (tagged "h1" pg)) as [n1|] eqn:H1.
  { intros [= <-]. apply first_name_first in H1 as (e & ? & ?).
    exists "h1", e. split; [left|]. split; [done|]. split; [done|].
    intros tag' e' i j Hi Hj Hlt. destruct j as [|j]; [lia|].
    destruct j as [|[|[|j]]]; discriminate. }
  destruct (first_name (tagged "h2" pg)) as [n2|] eqn:H2.
  { intros [= <-]. apply first_name_first in H2 as (e & ? & ?).
    exists "h2", e. split; [right; left|]. split; [done|]. split; [done|].
    intros tag' e' i j Hi Hj Hlt.
    destruct j as [|[|[|[|j]]]]; try discriminate.
    destruct i as [|i]; [|lia]. injection Hi as <-.
    by apply first_name_None_inv. }
  destruct (first_name (tagged "h3" pg)) as [n3|] eqn:H3; [|discriminate].
  intros [= <-]. apply first_name_first in H3 as (e & ? & ?).
  exists "h3", e. split; [right; right; left|]. split; [done|]. split; [done|].
  intros tag' e' i j Hi Hj Hlt.
  destruct j as [|[|[|[|j]]]]; try discriminate.
  destruct i as [|[|i]]; [| |lia]; injection Hi as <-; by apply first_name_None_inv.
Qed.

(** ** The record *)

Lemma extract_item_details_visits d now c cat iu it :
  (extract_item_details d now c cat iu).1 = Some it →
  visits (extract_item_details d now c cat iu).2 = S (visits d)
  ∧ storefront (extract_item_details d now c cat iu).2 = storefront d.
Proof.
  unfold extract_item_details, driver_get.
  destruct (target_of c iu) as [u|]; [|discriminate].
  by destruct (storefront d (visits d) u).
Qed.

Lemma main_image_filter (pg : page) (u : string) :
  main_image pg = Some u →
  ∃ img a, img ∈ tagged "img" pg ∧ recorded img = Some (u, a).
Proof.
  intros H. destruct (main_image_spec pg _ (find_images pg)) as [_ Hmax].
  destruct (Hmax u H) as (a & (before & img & after & Heq & Hr & _) & _).
  exists img, a. split; [|done].
  assert (img ∈ filter (λ e, has_tag "img" e
                             && holds (ContainsAttr "src" "/ape/uploads/") e)
                       (all_elements pg)) as Hin
    by (rewrite Heq; apply elem_of_app; right; left).
  apply list_elem_of_filter in Hin as [Ht Hin]. apply list_elem_of_filter.
  split; [|done]. by apply andb_True in Ht as [? _].
Qed.

(** ** The course of the sweep *)

Lemma process_item_course_inv w posted pages page_url st item_url :
  page_url ∈ pages → str_in "/crownstore/item/" item_url = true →
  course_inv pages st → course_inv pages (process_item w posted page_url st item_url).
Proof.
  intros Hpage Hitem [Hnd Hproc Hit Hpg Hnm].
  destruct (decide (item_url ∈ processed_urls st)) as [Hin|Hin].
  { by rewrite process_item_seen. }
  destruct (process_item_course w posted page_url st item_url Hin) as (_ & Hp & Hc).
  destruct (extract_item_details _ _ _ _ _).1 as [it|] eqn:He; cbn [option_list] in Hc.
  2:{ rewrite app_nil_r in Hc. split; rewrite ?Hc, ?Hp; try done.
      intros it ?. apply elem_of_union_r. auto. }
  apply extract_item_details_Some in He as (u & pg & [-> _]%target_of_given & _ & He).
  apply inspect_item_Some in He as (_ & Hn & Hu & Hcat & _).
  apply resolve_name_Some in Hn as (_ & _ & _ & _ & _ & _ & _ & Hok).
  split; rewrite ?Hc, ?Hp.
  - rewrite fmap_app. apply NoDup_app. split; [done|]. split; [|apply NoDup_singleton].
    intros x Hx ->%list_elem_of_singleton. apply Hin.
    apply list_elem_of_fmap in Hx as (it' & Hu' & Hit'). rewrite <-Hu, Hu'. auto.
  - intros it' [?| ->%list_elem_of_singleton]%elem_of_app;
      [apply elem_of_union_r; auto|]. rewrite Hu. apply elem_of_union_l. by apply elem_of_singleton.
  - intros it' [?| ->%list_elem_of_singleton]%elem_of_app; [auto|congruence].
  - intros it' [?| ->%list_elem_of_singleton]%elem_of_app; [auto|congruence].
  - intros it' [?| ->%list_elem_of_singleton]%elem_of_app; [auto|done].
Qed.

Lemma sweep_page_course_inv w posted pages st page_url :
  page_url ∈ pages → course_inv pages st →
  course_inv pages (sweep_page w posted st page_url).
Proof.
  intros Hpage Hst. unfold sweep_page, driver_get.
  assert (course_inv pages
            {| drv := {| storefront := storefront (drv st); visits := S (visits (drv st));
                        history := history (drv st) ++ [page_url] |};
               free_items := free_items st; processed_urls := processed_urls st;
               new_posted_items := new_posted_items st; dispatched := dispatched st;
               classified := classified st |}) as Hst' by (by destruct Hst).
  destruct (storefront _ _ _) as [pg|e]; [|done].
  rewrite find_free. fold (collected pg).
  apply fold_left_preserves_in; [|done]. intros st' x Hx.
  apply process_item_course_inv; [done|].
  apply elem_of_elements, collected_member in Hx as (m & _ & Hx).
  by apply leads_to_item in Hx.
Qed.

Lemma scrape_course_inv w :
  course_inv (inspected (scrape_free_items w)) (final (scrape_free_items w)).
Proof.
  unfold scrape_free_items.
  destruct (get_all_crownstore_urls _) as [all_urls d]. cbn [inspected final].
  apply fold_left_preserves_in.
  - intros st x Hx. by apply sweep_page_course_inv.
  - split; cbn [classified fmap list_fmap]; try (by intros ? ?%elem_of_nil).
    apply NoDup_nil_2.
Qed.

Lemma process_item_replies_inv w posted page_url st item_url :
  replies_inv w st → replies_inv w (process_item w posted page_url st item_url).
Proof.
  intros Hst. unfold process_item. case_bool_decide; [done|].
  destruct (extract_item_details _ _ _ _ _) as [[it|] d]; [|done].
  case_bool_decide; [|done]. intros i it' b. cbn [dispatched truthy webhook_url].
  intros [Hi|[Hi Hnew]]%lookup_app_Some; [by apply Hst|].
  apply list_lookup_singleton_Some in Hnew as [Hz [= <- <-]].
  by replace i with (length (dispatched st)) by lia.
Qed.

Lemma sweep_page_replies_inv w posted st page_url :
  replies_inv w st → replies_inv w (sweep_page w posted st page_url).
Proof.
  intros Hst. unfold sweep_page, driver_get.
  destruct (storefront _ _ _) as [pg|e]; [|done].
  destruct (find_elements pg xp_free) as [els|e]; [|done].
  apply fold_left_preserves; [|done]. intros ? ?. apply process_item_replies_inv.
Qed.

Lemma scrape_replies_inv w : replies_inv w (final (scrape_free_items w)).
Proof.
  unfold scrape_free_items.
  destruct (get_all_crownstore_urls _) as [all_urls d]. cbn [final].
  apply fold_left_preserves; [intros ? ?; apply sweep_page_replies_inv|].
  by intros i it b.
Qed.

Lemma extract_item_details_navigates d now c cat iu u :
  target_of c iu = Some u →
  visits (extract_item_details d now c cat iu).2 = S (visits d).
Proof.
  intros H. unfold extract_item_details, driver_get. rewrite H.
  by destruct (storefront d (visits d) u).
Qed.

Lemma process_item_visits w posted page_url st item_url :
  item_url ≠ EmptyString →
  (visits (drv (process_item w posted page_url st item_url)) + size (processed_urls st)
   = visits (drv st) + size (processed_urls (process_item w posted page_url st item_url)))%nat.
Proof.
  intros Hne. destruct (decide (item_url ∈ processed_urls st)) as [Hin|Hin].
  { by rewrite process_item_seen. }
  destruct (process_item_course w posted page_url st item_url Hin) as (-> & -> & _).
  rewrite (extract_item_details_navigates _ _ _ _ _ item_url)
    by (by destruct item_url).
  rewrite size_union by (by apply disjoint_singleton_l). rewrite size_singleton. lia.
Qed.

Lemma fold_process_visits w posted page_url (l : list string) : ∀ st,
  (∀ x, x ∈ l → x ≠ EmptyString) →
  (visits (drv (fold_left (process_item w posted page_url) l st))
   + size (processed_urls st)
   = visits (drv st)
     + size (processed_urls (fold_left (process_item w posted page_url) l st)))%nat.
Proof.
  induction l as [|x l IH]; intros st Hl; cbn [fold_left]; [done|].
  specialize (IH (process_item w posted page_url st x)
                 (λ y Hy, Hl y (list_elem_of_further _ _ _ Hy))).
  pose proof (process_item_visits w posted page_url st x (Hl x (list_elem_of_here _ _))).
  lia.
Qed.

Lemma sweep_page_visits w posted st page_url :
  (visits (drv (sweep_page w posted st page_url)) + size (processed_urls st)
   = S (visits (drv st)) + size (processed_urls (sweep_page w posted st page_url)))%nat.
Proof.
  unfold sweep_page, driver_get.
  destruct (storefront _ _ _) as [pg|e]; [|done].
  rewrite find_free. fold (collected pg).
  match goal with |- context [fold_left ?f ?l ?st0] =>
    pose proof (fold_process_visits w posted page_url l st0) as H end.
  cbn [drv visits processed_urls] in H. rewrite H; [done|].
  intros x (m & _ & Hx)%elem_of_elements%collected_member.
  apply leads_to_item in Hx. by apply str_in_nonempty in Hx.
Qed.

Lemma fold_sweep_visits w posted (pages : list string) : ∀ st,
  (visits (drv (fold_left (sweep_page w posted) pages st)) + size (processed_urls st)
   = length pages + visits (drv st)
     + size (processed_urls (fold_left (sweep_page w posted) pages st)))%nat.
Proof.
  induction pages as [|p pages IH]; intros st; cbn [fold_left length]; [done|].
  specialize (IH (sweep_page w posted st p)).
  pose proof (sweep_page_visits w posted st p). lia.
Qed.

Lemma get_all_visits d : visits (get_all_crownstore_urls d).2 = S (visits d).
Proof.
  unfold get_all_crownstore_urls, driver_get.
  destruct (storefront _ _ _) as [pg|e]; [|done].
  by destruct (find_elements pg (ByTag "a")).
Qed.

(** ** Independence from the Ledger, the channel and the clock *)

Lemma item_id_undated (it : item_details) : item_id (undated it) = item_id it.
Proof. reflexivity. Qed.

Lemma inspect_item_undated (pg : page) (now now' u cat : string) :
  undated <$> inspect_item pg now u cat = undated <$> inspect_item pg now' u cat.
Proof.
  unfold inspect_item. destruct (find_elements pg xp_free) as [[|m ms]|e]; try done.
  destruct (find_elements pg xp_free_with_deal) as [deal|e]; [|done].
  destruct (resolve_name pg name_selectors) as [n|e]; [|done].
  by destruct (negb (truthy n) || negb true).
Qed.

Lemma extract_item_details_undated d now now' c cat iu :
  undated <$> (extract_item_details d now c cat iu).1
  = undated <$> (extract_item_details d now' c cat iu).1
  ∧ (extract_item_details d now c cat iu).2 = (extract_item_details d now' c cat iu).2.
Proof.
  unfold extract_item_details, driver_get. destruct (target_of c iu) as [u|]; [|done].
  destruct (storefront d (visits d) u) as [pg|e]; [|done].
  split; [apply inspect_item_undated|done].
Qed.

Lemma fmap_option_list {A B : Type} (f : A → B) (o o' : option A) :
  f <$> o = f <$> o' → f <$> option_list o = f <$> option_list o'.
Proof. destruct o, o'; cbn; intros [=]; congruence. Qed.

Lemma process_item_same_course w w' posted posted' page_url st st' item_url :
  same_course st st' →
  same_course (process_item w posted page_url st item_url)
              (process_item w' posted' page_url st' item_url).
Proof.
  intros (Hd & Hp & Hc). destruct (decide (item_url ∈ processed_urls st)) as [Hin|Hin].
  { rewrite !process_item_seen by (by rewrite <-?Hp). by repeat split. }
  unfold same_course.
  destruct (process_item_course w posted page_url st item_url Hin) as (-> & -> & ->).
  destruct (process_item_course w' posted' page_url st' item_url) as (-> & -> & ->);
    [by rewrite <-Hp|].
  rewrite <-Hd, <-Hp.
  destruct (extract_item_details_undated (drv st) (w_now w (visits (drv st)))
              (w_now w' (visits (drv st))) None page_url (Some item_url)) as [H1 H2].
  split; [done|]. split; [done|]. rewrite !fmap_app, Hc. f_equal.
  by apply fmap_option_list.
Qed.

Lemma sweep_page_same_course w w' posted posted' st st' page_url :
  same_course st st' →
  same_course (sweep_page w posted st page_url) (sweep_page w' posted' st' page_url).
Proof.
  intros (Hd & Hp & Hc). unfold sweep_page, driver_get. rewrite <-Hd.
  destruct (storefront _ _ _) as [pg|e]; [|by repeat split].
  destruct (find_elements pg xp_free) as [els|e]; [|by repeat split].
  apply fold_left_related; [intros ? ? ?; apply process_item_same_course|].
  by repeat split.
Qed.

Lemma scrape_same_course w w' :
  w_storefront w = w_storefront w' →
  same_course (final (scrape_free_items w)) (final (scrape_free_items w'))
  ∧ inspected (scrape_free_items w) = inspected (scrape_free_items w').
Proof.
  intros Hs. unfold scrape_free_items. cbn [drv]. rewrite <-Hs.
  destruct (get_all_crownstore_urls _) as [all_urls d]. cbn [final inspected].
  split; [|done].
  apply fold_left_related; [intros ? ? ?; apply sweep_page_same_course|].
  by repeat split.
Qed.

Lemma classified_ids_known (w : world) (it : item_details) :
  it ∈ classified (final (scrape_free_items w)) →
  item_id it ∈ new_posted_items (final (scrape_free_items w)).
Proof.
  intros Hin. destruct (decide (item_id it ∈ load_posted_items (w_disk w))) as [Hk|Hk].
  - destruct (scrape_inv w) as [_ _ Hnew]. rewrite Hnew, scrape_posted_items.
    by apply elem_of_union_l.
  - by apply artifact_in_new_posted, classified_new_in_artifact.
Qed.

Lemma scrape_again_silent (w w' : world) :
  w_storefront w' = w_storefront w → w_write w = Written →
  w_disk w' = disk (scrape_free_items w) →
  free_items (final (scrape_free_items w')) = []
  ∧ dispatched (final (scrape_free_items w')) = []
  ∧ new_posted_items (final (scrape_free_items w'))
    = new_posted_items (final (scrape_free_items w)).
Proof.
  intros Hs Hw Hd. destruct (scrape_inv w') as [Hfree Hsent Hnew].
  rewrite scrape_posted_items, Hd, scrape_disk, Hw, load_save in Hfree, Hnew
    by apply new_posted_well_formed.
  destruct (scrape_same_course w' w Hs) as [(_ & _ & Hc) _].
  assert (free_items (final (scrape_free_items w')) = []) as Hnil.
  { rewrite Hfree. apply elem_of_nil_inv. intros it [Hnot Hit]%list_elem_of_filter.
    apply Hnot.
      assert (undated it ∈ undated <$> classified (final (scrape_free_items w'))) as Hu
        by (by apply list_elem_of_fmap_2).
      rewrite Hc in Hu. apply list_elem_of_fmap in Hu as (it0 & Heq & Hit0).
      rewrite <-item_id_undated, Heq, item_id_undated. by apply classified_ids_known. }
  split; [done|]. split.
  - rewrite Hnil in Hsent. by apply fmap_nil_inv in Hsent.
  - rewrite Hnew, Hnil. cbn. set_solver +.
Qed.

Lemma sweep_page_collected w posted st page_url pg :
  storefront (drv st) (visits (drv st)) page_url = Ok pg →
  sweep_page w posted st page_url
  = fold_left (process_item w posted page_url) (elements (collected pg))
      {| drv := (driver_get (drv st) page_url).2; free_items := free_items st;
         processed_urls := processed_urls st; new_posted_items := new_posted_items st;
         dispatched := dispatched st; classified := classified st |}.
Proof. intros H. unfold sweep_page, driver_get. by rewrite H. Qed.

Lemma send_item_to_discord_true post it u :
  send_item_to_discord post it u = true ↔ post u (message_of it) = Ok 204.
Proof.
  unfold send_item_to_discord. destruct (post u (message_of it)) as [code|e].
  - destruct (code =? 204) eqn:Hc.
    + apply Z.eqb_eq in Hc as ->. done.
    + apply Z.eqb_neq in Hc. split; [done|]. intros [= ->]. done.
  - done.
Qed.

(** * Further properties of the code *)

(** X1. Discovery never leaves the store and never repeats itself: every
    address [get_all_crownstore_urls] returns starts with the root
    listing address, and no address is returned twice. *)
Theorem X1_discovery_stays_in_store (d : driver) :
  NoDup (get_all_crownstore_urls d).1
  ∧ ∀ u, u ∈ (get_all_crownstore_urls d).1 → startswith u root_url = true.
Proof. split; [apply get_all_NoDup|apply get_all_members]. Qed.

Lemma X1_discovery_stays_in_store_witness :
  events ∈ (get_all_crownstore_urls (serving root_page)).1
  ∧ startswith events root_url = true.
Proof.
  assert (events ∈ (get_all_crownstore_urls (serving root_page)).1) as H
    by (apply (bool_decide_unpack _); vm_compute; exact I).
  split; [exact H|].
  exact (proj2 (X1_discovery_stays_in_store (serving root_page)) events H).
Defined.

(** X2. When the root page loads, the addresses returned are exactly the
    root listing address and the addresses of the page's links that
    start with it; links that lead elsewhere and anchors without an
    address are left out. *)
Theorem X2_discovery_exact (d : driver) (pg : page) (u : string) :
  storefront d (visits d) root_url = Ok pg →
  (u ∈ (get_all_crownstore_urls d).1 ↔
   u = root_url
   ∨ ∃ link, link ∈ tagged "a" pg ∧ get_attribute link "href" = Some u
             ∧ startswith u root_url = true).
Proof.
  intros H. rewrite (get_all_on d pg H).
  rewrite elem_of_elements, elem_of_union, elem_of_singleton, fold_add_link.
  split.
  - intros [?|[?%not_elem_of_empty|?]]; [by left|done|by right].
  - intros [?|?]; [by left|right; by right].
Qed.

Lemma X2_discovery_exact_witness :
  storefront (serving root_page) 0 root_url = Ok root_page
  ∧ ("https://example.com/" ∈ (get_all_crownstore_urls (serving root_page)).1 ↔
     "https://example.com/" = root_url
     ∨ ∃ link, link ∈ tagged "a" root_page
               ∧ get_attribute link "href" = Some "https://example.com/"
               ∧ startswith "https://example.com/" root_url = true).
Proof.
  split; [reflexivity|].
  exact (X2_discovery_exact (serving root_page) root_page "https://example.com/" eq_refl).
Defined.

(** X3. Called without an item address, [extract_item_details] takes the
    address of the first link below the container, in document order,
    that contains [/crownstore/item/]; the record's address is that
    address. When no link below the container qualifies, there is no
    record and the session does not navigate. *)
Theorem X3_address_from_container (d : driver) (now : string) (c : WebElement)
    (cat : string) (item_url : option string) :
  truthy item_url = false →
  (∀ it, (extract_item_details d now (Some c) cat item_url).1 = Some it →
         ∃ link, first_where item_link (links_below c) link
                 ∧ get_attribute link "href" = Some (url it))
  ∧ ((∀ link, link ∈ links_below c → item_link link = false) →
     extract_item_details d now (Some c) cat item_url = (None, d)).
Proof.
  intros Hno. assert (target_of (Some c) item_url = first_item_href (links_below c))
    as Ht by (unfold target_of; by rewrite Hno).
  split.
  - intros it (u & pg & Hu & _ & Hit)%extract_item_details_Some.
    apply inspect_item_Some in Hit as (_ & _ & <- & _).
    rewrite Ht in Hu. by apply first_item_href_Some in Hu.
  - intros Hnone%first_item_href_None. unfold extract_item_details.
    by rewrite Ht, Hnone.
Qed.

Lemma X3_address_from_container_witness :
  truthy None = false
  ∧ ∃ link, first_where item_link (links_below card_handle) link
            ∧ get_attribute link "href" = Some item_1.
Proof.
  split; [reflexivity|].
  exact (proj1 (X3_address_from_container (serving detail_free) noon card_handle
                  companions None eq_refl) (senche item_1) eq_refl).
Defined.

(** X4. The detail-page addresses the sweep collects from a listing page
    are exactly these: for a marker element, take the outermost element
    above it whose class contains [item], [product] or [card], and in it
    the first link, in document order, whose address contains
    [/crownstore/item/]. A marker with no such element above it, or with
    no such link in it, adds nothing. *)
Theorem X4_collected_addresses (pg : page) (u : string) :
  u ∈ collected pg ↔
  ∃ m c link, m ∈ all_elements pg ∧ str_in "FREE!" (xp_text m) = true
              ∧ first_where container_class (ancestors m) c
              ∧ first_where item_link (links_below c) link
              ∧ get_attribute link "href" = Some u.
Proof.
  rewrite collected_member. split.
  - intros (m & [? ?]%free_markers_member & c & link & ? & ? & ?). by exists m, c, link.
  - intros (m & c & link & ? & ? & ? & ? & ?). exists m.
    split; [by apply free_markers_member|]. by exists c, link.
Qed.

(** X5. A record carries the address the session navigated to, the
    listing page it was asked for and the time it was given; its name is
    trimmed: trimming it again changes nothing. Producing a record takes
    exactly one navigation. *)
Theorem X5_record_fields (d : driver) (now : string)
    (item_container : option WebElement) (cat : string) (item_url : option string)
    (it : item_details) :
  (extract_item_details d now item_container cat item_url).1 = Some it →
  target_of item_container item_url = Some (url it)
  ∧ category_url it = cat ∧ found_date it = now
  ∧ strip (name it) = name it
  ∧ visits (extract_item_details d now item_container cat item_url).2 = S (visits d).
Proof.
  intros H. pose proof (extract_item_details_visits _ _ _ _ _ _ H) as [Hv _].
  apply extract_item_details_Some in H as (u & pg & Hu & _ & Hit).
  apply inspect_item_Some in Hit as (_ & Hn & <- & Hc & Hd & _).
  apply resolve_name_Some in Hn as (_ & _ & e & _ & _ & _ & <- & _).
  by rewrite strip_idempotent.
Qed.

Lemma X5_record_fields_witness :
  (extract_item_details (serving detail_loyalty) noon None companions
                        (Some item_1)).1
  = Some {| name := "Sword of Testing"; url := item_1; category_url := companions;
            image_url := Some asset_big; is_eso_plus_free := true;
            found_date := noon |}
  ∧ strip "Sword of Testing" = "Sword of Testing".
Proof.
  split; [reflexivity|].
  exact (proj1 (proj2 (proj2 (proj2
           (X5_record_fields (serving detail_loyalty) noon None companions
              (Some item_1) _ eq_refl))))).
Defined.

(** X6. The name of a record is the trimmed text of a heading: of the
    first [h1] element, in document order, whose text passes the test on
    names, or if no [h1] passes of the first such [h2], or else of the
    first such [h3]. The four selectors on class names never supply a
    name. *)
Theorem X6_name_from_first_heading (d : driver) (now : string)
    (item_container : option WebElement) (cat : string) (item_url : option string)
    (it : item_details) :
  (extract_item_details d now item_container cat item_url).1 = Some it →
  ∃ pg tag e,
    storefront d (visits d) (url it) = Ok pg
    ∧ tag ∈ heading_tags
    ∧ first_where has_name (tagged tag pg) e
    ∧ strip (text e) = name it
    ∧ ∀ tag' e' i j, heading_tags !! i = Some tag' → heading_tags !! j = Some tag →
                     (i < j)%nat → e' ∈ tagged tag' pg → has_name e' = false.
Proof.
  intros (u & pg & _ & Hpg & Hit)%extract_item_details_Some.
  apply inspect_item_Some in Hit as (_ & Hn & <- & _).
  apply resolve_name_source in Hn as (tag & e & ? & ? & ? & ?).
  by exists pg, tag, e.
Qed.

Lemma X6_name_from_first_heading_witness :
  (extract_item_details (serving detail_second_heading) noon None companions
                        (Some item_1)).1
  = Some {| name := "Ayleid Throne"; url := item_1; category_url := companions;
            image_url := None; is_eso_plus_free := false; found_date := noon |}
  ∧ ∃ pg tag e,
      storefront (serving detail_second_heading) 0 item_1 = Ok pg
      ∧ tag ∈ heading_tags
      ∧ first_where has_name (tagged tag pg) e
      ∧ strip (text e) = "Ayleid Throne"
      ∧ ∀ tag' e' i j, heading_tags !! i = Some tag' → heading_tags !! j = Some tag →
                       (i < j)%nat → e' ∈ tagged tag' pg → has_name e' = false.
Proof.
  split; [reflexivity|].
  exact (X6_name_from_first_heading (serving detail_second_heading) noon None
           companions (Some item_1) _ eq_refl).
Defined.

(** X7. The image address of a record is the address of an [img] element
    of the page; it contains [akamaihd.net] and [/ape/uploads/] and does
    not contain [icon-crown]; and that element's size either cannot be
    read or exceeds 100 on both sides. *)
Theorem X7_image_passes_filter (d : driver) (now : string)
    (item_container : option WebElement) (cat : string) (item_url : option string)
    (it : item_details) (u : string) :
  (extract_item_details d now item_container cat item_url).1 = Some it →
  image_url it = Some u →
  str_in "akamaihd.net" u = true ∧ str_in "/ape/uploads/" u = true
  ∧ str_in "icon-crown" u = false
  ∧ ∃ pg img, storefront d (visits d) (url it) = Ok pg
      ∧ img ∈ tagged "img" pg ∧ get_attribute img "src" = Some u
      ∧ ((∃ w h, element_size img = Ok (w, h) ∧ 100 < w ∧ 100 < h)
         ∨ (∃ e, element_size img = Raise e)).
Proof.
  intros (t & pg & _ & Hpg & Hit)%extract_item_details_Some Hu.
  apply inspect_item_Some in Hit as (_ & _ & <- & _ & _ & Himg & _).
  rewrite Himg in Hu. apply main_image_filter in Hu as (img & a & Hin & Hr).
  apply recorded_Some in Hr as (Hsrc & _ & H1 & H2 & H3 & Hsize).
  split; [done|]. split; [done|]. split; [done|]. exists pg, img.
  split; [done|]. split; [done|]. split; [done|].
  destruct Hsize as [(w & h & ? & ? & ? & _)|(e & ? & _)];
    [left; by exists w, h|right; by exists e].
Qed.

Lemma X7_image_passes_filter_witness :
  (extract_item_details (serving detail_unreadable) noon None companions
                        (Some item_1)).1
  = Some {| name := "Nightmare Senche"; url := item_1; category_url := companions;
            image_url := Some asset_big; is_eso_plus_free := false;
            found_date := noon |}
  ∧ str_in "akamaihd.net" asset_big = true.
Proof.
  split; [reflexivity|].
  exact (proj1 (X7_image_passes_filter (serving detail_unreadable) noon None
                  companions (Some item_1) _ asset_big eq_refl eq_refl)).
Defined.

(** X8. The list [scrape_free_items] returns is the sequence of items it
    handed to [send_item_to_discord], in order, each once; and the
    notification of rank [i] is reported delivered exactly when the
    channel answered 204 to the post of rank [i] carrying the message
    for that item. *)
Theorem X8_returned_items_are_the_notified (w : world) :
  (dispatched (final (scrape_free_items w))).*1 = output_artifact w
  ∧ ∀ i it b, dispatched (final (scrape_free_items w)) !! i = Some (it, b) →
              (b = true ↔ w_post w i webhook_url (message_of it) = Ok 204).
Proof.
  split; [apply (inv_sent _ _ (scrape_inv w))|].
  intros i it b Hi. rewrite (scrape_replies_inv w i it b Hi).
  apply send_item_to_discord_true.
Qed.

Lemma X8_returned_items_are_the_notified_witness :
  dispatched (final (scrape_free_items world_mute)) !! 0%nat
  = Some (senche item_1, false)
  ∧ (false = true ↔
     w_post world_mute 0 webhook_url (message_of (senche item_1)) = Ok 204).
Proof.
  assert (dispatched (final (scrape_free_items world_mute)) !! 0%nat
          = Some (senche item_1, false)) as H by (vm_compute; reflexivity).
  split; [exact H|].
  exact (proj2 (X8_returned_items_are_the_notified world_mute) 0%nat _ _ H).
Defined.

(** X9. The set handed to [save_posted_items] is exactly the Ledger as
    loaded together with the identities of the items the run returns:
    nothing else is added and nothing is removed. *)
Theorem X9_saved_ledger_exact (w : world) :
  new_posted_items (final (scrape_free_items w))
  = load_posted_items (w_disk w) ∪ list_to_set (item_id <$> output_artifact w).
Proof.
  rewrite <-scrape_posted_items. apply (inv_new _ _ (scrape_inv w)).
Qed.

(** X10. No detail page is classified twice in a run: the records
    classified have pairwise different addresses, also when an item is
    listed on several pages, and each address is in the set of processed
    addresses. *)
Theorem X10_each_address_classified_once (w : world) :
  NoDup (url <$> classified (final (scrape_free_items w)))
  ∧ ∀ it, it ∈ classified (final (scrape_free_items w)) →
          url it ∈ processed_urls (final (scrape_free_items w)).
Proof.
  destruct (scrape_course_inv w) as [Hnd Hp _ _ _]. by split.
Qed.

Lemma X10_each_address_classified_once_witness :
  senche item_2 ∈ classified (final (scrape_free_items world_two))
  ∧ item_2 ∈ processed_urls (final (scrape_free_items world_two)).
Proof.
  assert (senche item_2 ∈ classified (final (scrape_free_items world_two))) as H
    by (vm_compute; right; left).
  split; [exact H|].
  exact (proj2 (X10_each_address_classified_once world_two) _ H).
Defined.

(** X11. Every record a run classifies has an address that contains
    [/crownstore/item/], names as its listing page one of the pages the
    run inspects, and has a name that is non-empty, longer than two
    characters and free of the two chrome phrases. *)
Theorem X11_records_are_well_formed (w : world) (it : item_details) :
  it ∈ classified (final (scrape_free_items w)) →
  str_in "/crownstore/item/" (url it) = true
  ∧ category_url it ∈ inspected (scrape_free_items w)
  ∧ name it ≠ EmptyString ∧ 2 < len (name it)
  ∧ str_in "crown store" (lower (name it)) = false
  ∧ str_in "purchase crowns" (lower (name it)) = false.
Proof.
  intros H. destruct (scrape_course_inv w) as [_ _ Hi Hp Hn].
  split; [by apply Hi|]. split; [by apply Hp|]. by apply name_ok_true, Hn.
Qed.

Lemma X11_records_are_well_formed_witness :
  senche item_1 ∈ classified (final (scrape_free_items world_two))
  ∧ category_url (senche item_1) ∈ inspected (scrape_free_items world_two).
Proof.
  assert (senche item_1 ∈ classified (final (scrape_free_items world_two))) as H
    by (vm_compute; left).
  split; [exact H|].
  exact (proj1 (proj2 (X11_records_are_well_formed world_two _ H))).
Defined.

(** X13. A run that starts from the Ledger file a completed run left, on
    the same storefront, notifies nothing, returns no item and hands the
    same set to [save_posted_items]. *)
Theorem X13_second_run_is_silent (w w' : world) :
  w_storefront w' = w_storefront w → w_write w = Written →
  w_disk w' = disk (scrape_free_items w) →
  output_artifact w' = []
  ∧ dispatched (final (scrape_free_items w')) = []
  ∧ new_posted_items (final (scrape_free_items w'))
    = new_posted_items (final (scrape_free_items w)).
Proof. apply scrape_again_silent. Qed.

Lemma X13_second_run_is_silent_witness :
  w_storefront world_two_again = w_storefront world_two
  ∧ w_write world_two = Written
  ∧ w_disk world_two_again = disk (scrape_free_items world_two)
  ∧ dispatched (final (scrape_free_items world_two_again)) = [].
Proof.
  split; [reflexivity|]. split; [reflexivity|]. split; [reflexivity|].
  exact (proj1 (proj2 (X13_second_run_is_silent world_two world_two_again
                         eq_refl eq_refl eq_refl))).
Defined.

(** X14. A run navigates once for discovery, once for each page it
    inspects and once for each detail address it processes, and no more
    often. *)
Theorem X14_navigation_count (w : world) :
  visits (drv (final (scrape_free_items w)))
  = (1 + length (inspected (scrape_free_items w))
     + size (processed_urls (final (scrape_free_items w))))%nat.
Proof.
  unfold scrape_free_items. cbn [drv].
  pose proof (get_all_visits (fresh_session w)) as Hv. unfold fresh_session in Hv.
  destruct (get_all_crownstore_urls _) as [all_urls d]. cbn [final inspected snd] in *.
  match goal with |- context [fold_left ?f ?l ?st0] =>
    pose proof (fold_sweep_visits w (load_posted_items (w_disk w)) l st0) as H;
    set (F := fold_left f l st0) in * end.
  cbn [drv processed_urls visits] in H, Hv. rewrite size_empty in H. lia.
Qed.

(** X15. A run never inspects a page outside the store: every address
    it inspects starts with the root listing address; and the root
    listing page itself is always among the pages inspected. *)
Theorem X15_sweep_stays_in_store (w : world) :
  root_url ∈ inspected (scrape_free_items w)
  ∧ ∀ u, u ∈ inspected (scrape_free_items w) → startswith u root_url = true.
Proof.
  rewrite scrape_inspected. unfold urls_to_check, remaining_urls. split.
  - apply elem_of_app. right. apply list_elem_of_filter. split; [|apply get_all_root].
    apply (bool_decide_unpack _). vm_compute. exact I.
  - intros u [Hu|[_ Hu]%list_elem_of_filter]%elem_of_app; [|by apply get_all_members in Hu].
    revert u Hu. apply Forall_forall, (bool_decide_unpack _). vm_compute. exact I.
Qed.

Lemma X15_sweep_stays_in_store_witness :
  companions ∈ inspected (scrape_free_items world_two)
  ∧ startswith companions root_url = true.
Proof.
  assert (companions ∈ inspected (scrape_free_items world_two)) as H
    by (vm_compute; left).
  split; [exact H|].
  exact (proj2 (X15_sweep_stays_in_store world_two) _ H).
Defined.
